(** * AutoAgentHire: the application orchestration engine

    A shallow embedding of the scoring engine
    ([app/services/matcher.py]), the bounded submission loop
    ([automation/linkedin_bot.py]) and the orchestrator with its
    in-memory ledger ([app/services/auto_apply.py]), followed by the
    properties of the specification that were checked against them.
    Job discovery ([app/services/job_scraper.py]), the matching endpoint
    ([app/routes/jobs.py]), cover-letter validation
    ([app/services/cover_letter_generator.py]) and the embeddings cache
    ([app/utils/vectorstore.py]) are embedded as well, with properties
    read off their code.

    Conventions of the embedding.
    - Python [float] values are rationals ([Q]): comparisons and the
      weighted sum are exact, rounding of binary floating point is not
      modelled.  Python [int] values are [Z].
    - Wall-clock instants are seconds ([Z]); the calendar date of an
      instant is its day number.
    - A helper that wraps its body in [try/except Exception] and returns a
      fallback is a total function returning that fallback.
    - Collaborators outside the engine (embedding provider, judge, browser
      driver, discovery) are fields of a record or inputs of the function
      that calls them. *)

From stdpp Require Import gmap strings list fin_maps pretty.
From Stdlib Require Import QArith Qround Lqa Sorted.

Local Open Scope Z_scope.

(** ** Python built-ins used by the services *)

(** [a < b] on floats. *)
Definition Qlt_bool (a b : Q) : bool := negb (Qle_bool b a).

(** [min(a, b)]: the first argument unless the second is strictly smaller. *)
Definition py_min (a b : Q) : Q := if Qlt_bool b a then b else a.

(** [max(a, b)]: the first argument unless the second is strictly larger. *)
Definition py_max (a b : Q) : Q := if Qlt_bool a b then b else a.

(** Truth value of a float: every value but zero. *)
Definition float_truthy (x : Q) : bool := negb (Qeq_bool x 0).

(** Truth value of an optional float ([None] is false). *)
Definition opt_float_truthy (x : option Q) : bool :=
  match x with
  | Some q => float_truthy q
  | None => false
  end.

(** [x or d] for a float [x]. *)
Definition float_or (x d : Q) : Q := if float_truthy x then x else d.

(** [x or d] for an optional float [x]. *)
Definition opt_float_or (x : option Q) (d : Q) : Q :=
  match x with
  | Some q => float_or q d
  | None => d
  end.

(** [x or d] for an int [x]. *)
Definition int_or (x d : Z) : Z := if Z.eqb x 0 then d else x.

(** Truth value of a string: every string but the empty one. *)
Definition str_truthy (s : string) : bool :=
  match s with
  | EmptyString => false
  | String _ _ => true
  end.

(** [l[:n]]: the first [n] items for [n >= 0]; for a negative [n] all but
    the last [-n] items. *)
Definition py_slice_to {A : Type} (n : Z) (l : list A) : list A :=
  if Z.leb 0 n then take (Z.to_nat n) l
  else take (Z.to_nat (Z.of_nat (length l) + n)) l.

(** [l[-n:]] for a positive literal [n]: the last [n] items. *)
Definition py_last_n {A : Type} (n : nat) (l : list A) : list A :=
  drop (length l - n)%nat l.

(** [c.lower()] on one character (ASCII letters). *)
Definition lower_ascii (c : Ascii.ascii) : Ascii.ascii :=
  let n := Ascii.N_of_ascii c in
  if (N.leb 65 n && N.leb n 90)%bool then Ascii.ascii_of_N (n + 32) else c.

(** [s.lower()]. *)
Fixpoint lower (s : string) : string :=
  match s with
  | EmptyString => EmptyString
  | String c rest => String (lower_ascii c) (lower rest)
  end.

(** [sep.join(parts)]. *)
Fixpoint join (sep : string) (parts : list string) : string :=
  match parts with
  | [] => EmptyString
  | [p] => p
  | p :: rest => p +:+ sep +:+ join sep rest
  end.

(** [needle in haystack] on strings. *)
Definition str_in (needle haystack : string) : bool :=
  match String.index 0 needle haystack with
  | Some _ => true
  | None => false
  end.

(** [any(ind in text for ind in indicators)]. *)
Definition any_in (indicators : list string) (text : string) : bool :=
  existsb (fun ind => str_in ind text) indicators.

(** [round(x)] to the nearest integer, ties to the even one. *)
Definition round_half_even (x : Q) : Z :=
  let f := Qfloor x in
  let r := (x - inject_Z f)%Q in
  if Qlt_bool r (1 # 2) then f
  else if Qlt_bool (1 # 2) r then f + 1
  else if Z.even f then f else f + 1.

(** [round(x, ndigits)]. *)
Definition py_round (x : Q) (ndigits : nat) : Q :=
  let scale := inject_Z (10 ^ Z.of_nat ndigits) in
  Qred (inject_Z (round_half_even (x * scale)) / scale).

(** [sum(xs)] over floats. *)
Definition py_sum (xs : list Q) : Q := foldl Qplus 0%Q xs.

(** ** Data model ([app/models/job_schema.py], [app/config.py]) *)

(** [JobDetails]: the fields the engine reads or writes. *)
Record JobDetails := mkJobDetails {
  jd_id : string;
  jd_title : string;
  jd_company : string;
  jd_location : string;
  jd_url : string;
  jd_description : string;
  jd_requirements : list string;
  jd_salary_range : string;
  jd_job_type : string;
  jd_experience_level : string;
  jd_posted_date : string;
  jd_match_score : option Q
}.

(** [job.match_score = v]: plain attribute assignment, the validator of the
    model does not run on assignment. *)
Definition set_match_score (job : JobDetails) (v : Q) : JobDetails :=
  mkJobDetails (jd_id job) (jd_title job) (jd_company job) (jd_location job)
    (jd_url job) (jd_description job) (jd_requirements job)
    (jd_salary_range job) (jd_job_type job) (jd_experience_level job)
    (jd_posted_date job) (Some v).

(** [JobDetails.validate_match_score]: run when a [JobDetails] is
    constructed; [false] stands for the [ValueError]. *)
Definition validate_match_score (v : option Q) : bool :=
  match v with
  | None => true
  | Some q => negb (Qlt_bool q 0 || Qlt_bool 1 q)
  end.

(** [AutoApplyRequest]: the application settings of one run. *)
Record AutoApplyRequest := mkAutoApplyRequest {
  max_applications_per_run : Z;
  min_match_score : Q;
  generate_cover_letter : bool;
  custom_message : string
}.

(** Validators of [AutoApplyRequest]. *)
Definition validate_max_applications (v : Z) : bool :=
  negb (Z.ltb v 1 || Z.ltb 20 v).

Definition validate_min_match_score (v : Q) : bool :=
  negb (Qlt_bool v 0 || Qlt_bool 1 v).

Definition valid_request (r : AutoApplyRequest) : bool :=
  validate_max_applications (max_applications_per_run r)
  && validate_min_match_score (min_match_score r).

(** [Settings]: the options the engine consults. *)
Record Settings := mkSettings {
  MAX_APPLICATIONS_PER_DAY : Z;
  SIMILARITY_THRESHOLD : Q;
  OPENAI_API_KEY : string
}.

Definition default_settings : Settings := mkSettings 50 0.8%Q "".

(** ** Scoring engine ([app/services/matcher.py]) *)

(** The parsed resume: the entries of [user_profile] the matcher reads. *)
Record UserProfile := mkUserProfile {
  up_skills : list string;
  up_experience : list (string * string);
  up_location : string;
  up_embedding : list Q
}.

(** The collaborators of the matcher.  [cosine_similarity] and
    [chat_score] answer [None] when the call raises; [chat_score] is the
    judge's reply after [float(score_text)]. *)
Record Providers := mkProviders {
  SKLEARN_AVAILABLE : bool;
  NUMPY_AVAILABLE : bool;
  OPENAI_AVAILABLE : bool;
  generate_embedding : string -> list Q;
  cosine_similarity : list Q -> list Q -> option Q;
  chat_score : UserProfile -> string -> option Q
}.

(** [_create_job_text]: the non-empty parts joined by one space. *)
Definition _create_job_text (job : JobDetails) : string :=
  let text_parts :=
    [ jd_title job; jd_company job; jd_description job;
      join " " (jd_requirements job);
      jd_experience_level job; jd_job_type job ] in
  join " " (List.filter str_truthy text_parts).

(** [_calculate_semantic_similarity]. *)
Definition _calculate_semantic_similarity
    (env : Providers) (profile : UserProfile) (job_text : string) : Q :=
  match up_embedding profile with
  | [] => 0.5%Q
  | _ :: _ =>
      if negb (SKLEARN_AVAILABLE env) || negb (NUMPY_AVAILABLE env)
      then 0.5%Q
      else
        let job_embedding := generate_embedding env job_text in
        match cosine_similarity env (up_embedding profile) job_embedding with
        | Some similarity => similarity
        | None => 0.5%Q
        end
  end.

Definition common_skills : list string :=
  [ "python"; "java"; "javascript"; "react"; "angular"; "vue"; "node.js";
    "sql"; "postgresql"; "mysql"; "mongodb"; "aws"; "azure"; "docker";
    "kubernetes"; "git"; "linux"; "fastapi"; "django"; "flask" ].

(** The set [job_skills] built by [_calculate_skills_match]. *)
Definition job_skills_of (job : JobDetails) : gset string :=
  let from_requirements : gset string :=
    list_to_set (lower <$> jd_requirements job) in
  let job_text :=
    lower (jd_description job +:+ " " +:+ join " " (jd_requirements job)) in
  from_requirements
    ∪ list_to_set (List.filter (fun skill => str_in skill job_text) common_skills).

(** [_calculate_skills_match]. *)
Definition _calculate_skills_match (profile : UserProfile) (job : JobDetails) : Q :=
  let user_skills : gset string := list_to_set (lower <$> up_skills profile) in
  let job_skills := job_skills_of job in
  if Nat.eqb (size job_skills) 0 then 0.3%Q
  else
    let matching_skills := user_skills ∩ job_skills in
    let skills_score :=
      (inject_Z (Z.of_nat (size matching_skills))
       / inject_Z (Z.of_nat (size job_skills)))%Q in
    py_min skills_score 1.

Definition experience_mapping : gmap string Z :=
  <["entry" := 0]> (<["associate" := 2]> (<["mid" := 4]>
    (<["senior" := 7]> (<["executive" := 10]> ∅)))).

(** [_calculate_experience_match]. *)
Definition _calculate_experience_match (profile : UserProfile) (job : JobDetails) : Q :=
  let user_experience_years := Z.of_nat (length (up_experience profile)) in
  let job_experience_level :=
    if str_truthy (jd_experience_level job)
    then lower (jd_experience_level job) else "mid" in
  let required_years := default 4 (experience_mapping !! job_experience_level) in
  if Z.leb required_years user_experience_years then 1%Q
  else if Qle_bool (inject_Z required_years * 0.7) (inject_Z user_experience_years)
  then 0.8%Q
  else if Qle_bool (inject_Z required_years * 0.5) (inject_Z user_experience_years)
  then 0.6%Q
  else 0.3%Q.

(** [_calculate_location_match]. *)
Definition _calculate_location_match (profile : UserProfile) (job : JobDetails) : Q :=
  let user_location := up_location profile in
  let job_location :=
    if str_truthy (jd_location job) then lower (jd_location job) else "" in
  if str_in "remote" job_location then 1%Q
  else if str_truthy user_location && str_in (lower user_location) job_location
  then 1%Q
  else 0.5%Q.

(** [_calculate_ai_match_score]: the judge's number clamped to [0, 1]. *)
Definition _calculate_ai_match_score
    (settings : Settings) (env : Providers) (profile : UserProfile)
    (job_text : string) : Q :=
  if negb (str_truthy (OPENAI_API_KEY settings)) || negb (OPENAI_AVAILABLE env)
  then 0.5%Q
  else
    match chat_score env profile (String.substring 0 1500 job_text) with
    | Some score => py_max 0 (py_min 1 score)
    | None => 0.5%Q
    end.

(** The weighted combination of the five scores. *)
Definition final_score (semantic skills experience location ai : Q) : Q :=
  (semantic * 0.3 + skills * 0.3 + experience * 0.2
   + location * 0.1 + ai * 0.1)%Q.

(** [_calculate_match_score].  The five helpers catch their own exceptions,
    so the default score [0.5] of the outer handler is not reached. *)
Definition _calculate_match_score
    (settings : Settings) (env : Providers) (profile : UserProfile)
    (job : JobDetails) : Q :=
  let job_text := _create_job_text job in
  let semantic_score := _calculate_semantic_similarity env profile job_text in
  let skills_score := _calculate_skills_match profile job in
  let experience_score := _calculate_experience_match profile job in
  let location_score := _calculate_location_match profile job in
  let ai_score := _calculate_ai_match_score settings env profile job_text in
  py_min
    (final_score semantic_score skills_score experience_score
       location_score ai_score)
    1.

(** [match_jobs], with the profile loaded: every job is scored, the score is
    stored on the job, and the jobs reaching [SIMILARITY_THRESHOLD] are kept
    in their order. *)
Fixpoint match_jobs_with
    (settings : Settings) (score : JobDetails -> Q) (jobs : list JobDetails)
    : list JobDetails :=
  match jobs with
  | [] => []
  | job :: rest =>
      let match_score := score job in
      let job' := set_match_score job match_score in
      if Qle_bool (SIMILARITY_THRESHOLD settings) match_score
      then job' :: match_jobs_with settings score rest
      else match_jobs_with settings score rest
  end.

Definition match_jobs
    (settings : Settings) (env : Providers) (profile : UserProfile)
    (jobs : list JobDetails) : list JobDetails :=
  match_jobs_with settings (_calculate_match_score settings env profile) jobs.

(** ** Submission loop ([automation/linkedin_bot.py]) *)

(** What [driver.find_element] does: an element, [NoSuchElementException],
    or another exception. *)
Inductive find_result (Element : Type) : Type :=
  | Found (e : Element)
  | NoSuchElement
  | OtherError.
Arguments Found {Element} e.
Arguments NoSuchElement {Element}.
Arguments OtherError {Element}.

Inductive By := XPATH | CSS_SELECTOR.

(** The browser session as the bot sees it.  [Page] is the state of the
    browser; a probe reads it, an action yields the next state.
    - [is_enabled] and [page_source] answer [None] when they raise;
    - [click] and [navigate] return whether they came back normally and the
      state they leave;
    - [wait] is what the page becomes while the bot sleeps;
    - [_handle_application_form] and [_handle_application_questions] are
      the two form handlers: both catch every exception and report whether
      they filled or answered something;
    - [login] starts a session and reports whether it succeeded. *)
Record Channel (Page Element : Type) := mkChannel {
  find_element : By -> string -> Page -> find_result Element;
  is_enabled : Element -> Page -> option bool;
  click : Element -> Page -> bool * Page;
  page_source : Page -> option string;
  navigate : string -> Page -> bool * Page;
  wait : Page -> Page;
  _handle_application_form : option string -> option string -> Page -> bool * Page;
  _handle_application_questions : Page -> bool * Page;
  login : Page -> bool * Page
}.
Arguments find_element {Page Element} _ _ _ _.
Arguments is_enabled {Page Element} _ _ _.
Arguments click {Page Element} _ _ _.
Arguments page_source {Page Element} _ _.
Arguments navigate {Page Element} _ _ _.
Arguments wait {Page Element} _ _.
Arguments _handle_application_form {Page Element} _ _ _ _.
Arguments _handle_application_questions {Page Element} _ _.
Arguments login {Page Element} _ _.

(** Selector lists of the three button helpers. *)
Definition apply_selectors : list string :=
  [ "//button[contains(@class, 'jobs-apply-button')]";
    "//button[contains(text(), 'Apply')]";
    "//a[contains(@class, 'jobs-apply-button')]";
    "//button[contains(@aria-label, 'Apply')]";
    ".jobs-apply-button";
    ".jobs-s-apply" ].

Definition submit_selectors : list string :=
  [ "//button[contains(text(), 'Submit')]";
    "//button[contains(text(), 'Submit application')]";
    "//button[contains(@aria-label, 'Submit')]";
    ".jobs-apply-form__submit-button";
    "input[type='submit']" ].

Definition next_selectors : list string :=
  [ "//button[contains(text(), 'Next')]";
    "//button[contains(text(), 'Continue')]";
    "//button[contains(@aria-label, 'Next')]";
    ".jobs-apply-form__next-button" ].

Definition success_indicators : list string :=
  [ "application submitted";
    "application sent";
    "thank you for applying";
    "your application has been received" ].

Definition by_of (selector : string) : By :=
  if String.prefix "//" selector then XPATH else CSS_SELECTOR.

(** The body shared by [_click_apply_button], [_submit_application] and
    [_click_next_button]: try the selectors in order, click the first
    element found that is enabled, sleep, and answer [True]; a selector
    with no element, or with a disabled one, is skipped; any other
    exception answers [False]. *)
Fixpoint click_first_enabled {Page Element : Type}
    (ch : Channel Page Element) (selectors : list string) (p : Page)
    : bool * Page :=
  match selectors with
  | [] => (false, p)
  | selector :: rest =>
      match find_element ch (by_of selector) selector p with
      | Found button =>
          match is_enabled ch button p with
          | Some true =>
              let (returned, p') := click ch button p in
              if returned then (true, wait ch p') else (false, p')
          | Some false => click_first_enabled ch rest p
          | None => (false, p)
          end
      | NoSuchElement => click_first_enabled ch rest p
      | OtherError => (false, p)
      end
  end.

Definition _click_apply_button {Page Element : Type}
    (ch : Channel Page Element) (p : Page) : bool * Page :=
  click_first_enabled ch apply_selectors p.

Definition _submit_application {Page Element : Type}
    (ch : Channel Page Element) (p : Page) : bool * Page :=
  click_first_enabled ch submit_selectors p.

Definition _click_next_button {Page Element : Type}
    (ch : Channel Page Element) (p : Page) : bool * Page :=
  click_first_enabled ch next_selectors p.

(** [_is_application_submitted]. *)
Definition _is_application_submitted {Page Element : Type}
    (ch : Channel Page Element) (p : Page) : bool :=
  match page_source ch p with
  | Some source => any_in success_indicators (lower source)
  | None => false
  end.

(** The branch one pass of the loop of [_handle_application_process] ends
    in. *)
Inductive step_action :=
  | FormFilled
  | QuestionsAnswered
  | SubmitClicked
  | AlreadySubmitted
  | NextClicked
  | Stuck.

(** One pass of the [while] body. *)
Definition application_step {Page Element : Type}
    (ch : Channel Page Element) (cover_letter custom_msg : option string)
    (p : Page) : step_action * Page :=
  let p0 := wait ch p in
  let (form_handled, p1) := _handle_application_form ch cover_letter custom_msg p0 in
  if form_handled then (FormFilled, p1)
  else
    let (questions_handled, p2) := _handle_application_questions ch p1 in
    if questions_handled then (QuestionsAnswered, p2)
    else
      let (submitted, p3) := _submit_application ch p2 in
      if submitted then (SubmitClicked, p3)
      else if _is_application_submitted ch p3 then (AlreadySubmitted, p3)
      else
        let (next_clicked, p4) := _click_next_button ch p3 in
        if next_clicked then (NextClicked, p4) else (Stuck, p4).

(** The [while current_step < max_steps] loop, by the number of passes
    left.  The result is the returned boolean, the branches taken (one per
    pass, so its length is the final [current_step]) and the last page. *)
Fixpoint application_loop {Page Element : Type}
    (ch : Channel Page Element) (cover_letter custom_msg : option string)
    (steps_left : nat) (p : Page) : bool * list step_action * Page :=
  match steps_left with
  | O => (false, [], p)
  | S steps_left' =>
      let (action, p') := application_step ch cover_letter custom_msg p in
      match action with
      | FormFilled | QuestionsAnswered | NextClicked =>
          let '(result, trace, p_end) :=
            application_loop ch cover_letter custom_msg steps_left' p' in
          (result, action :: trace, p_end)
      | SubmitClicked | AlreadySubmitted => (true, [action], p')
      | Stuck => (false, [action], p')
      end
  end.

Definition max_steps : nat := 5.

(** [_handle_application_process]. *)
Definition _handle_application_process {Page Element : Type}
    (ch : Channel Page Element) (cover_letter custom_msg : option string)
    (p : Page) : bool * list step_action * Page :=
  application_loop ch cover_letter custom_msg max_steps p.

(** The bot: whether Selenium could be imported, the login flag and the
    browser state. *)
Record LinkedInBot (Page : Type) := mkBot {
  SELENIUM_AVAILABLE : bool;
  is_logged_in : bool;
  driver : Page
}.
Arguments mkBot {Page} _ _ _.
Arguments SELENIUM_AVAILABLE {Page} _.
Arguments is_logged_in {Page} _.
Arguments driver {Page} _.

(** [apply_to_job]. *)
Definition apply_to_job {Page Element : Type}
    (ch : Channel Page Element) (bot : LinkedInBot Page) (job : JobDetails)
    (cover_letter custom_msg : option string) : bool * LinkedInBot Page :=
  if negb (SELENIUM_AVAILABLE bot) then (true, bot)
  else
    let (logged, p0) :=
      if is_logged_in bot then (true, driver bot) else login ch (driver bot) in
    if negb logged then (false, mkBot true false p0)
    else
      let (arrived, p1) := navigate ch (jd_url job) p0 in
      if negb arrived then (false, mkBot true true p1)
      else
        let (clicked, p2) := _click_apply_button ch (wait ch p1) in
        if negb clicked then (false, mkBot true true p2)
        else
          let '(success, _, p3) :=
            _handle_application_process ch cover_letter custom_msg p2 in
          (success, mkBot true true p3).

(** ** Orchestrator and ledger ([app/services/auto_apply.py]) *)

(** One entry of [application_history]: the dictionary written by
    [_apply_to_job], with the key [retried_at] that a successful retry
    adds. *)
Record ApplicationRecord := mkRecord {
  job_id : string;
  job_title : string;
  company : string;
  applied_at : Z;
  success : bool;
  match_score : option Q;
  cover_letter_generated : bool;
  retried_at : option Z
}.

(** Values stored in the dictionary of a record. *)
Inductive pyval :=
  | PyNone
  | PyBool (b : bool)
  | PyStr (s : string)
  | PyFloat (q : Q)
  | PyIsoTime (t : Z).

Definition pyval_of_score (x : option Q) : pyval :=
  match x with
  | Some q => PyFloat q
  | None => PyNone
  end.

(** The keys and values of a record, as the dictionary literal of
    [_apply_to_job] lists them. *)
Definition record_dict (r : ApplicationRecord) : gmap string pyval :=
  let d : gmap string pyval :=
    <["job_id" := PyStr (job_id r)]>
    (<["job_title" := PyStr (job_title r)]>
    (<["company" := PyStr (company r)]>
    (<["applied_at" := PyIsoTime (applied_at r)]>
    (<["success" := PyBool (success r)]>
    (<["match_score" := pyval_of_score (match_score r)]>
    (<["cover_letter_generated" := PyBool (cover_letter_generated r)]> ∅)))))) in
  match retried_at r with
  | Some t => <["retried_at" := PyIsoTime t]> d
  | None => d
  end.

(** The mutable fields of [AutoApplyService]. *)
Record AutoApplyService := mkService {
  is_running : bool;
  applications_today : Z;
  application_history : list ApplicationRecord;
  last_application_time : option Z
}.

(** [AutoApplyService.__init__]. *)
Definition new_service : AutoApplyService := mkService false 0 [] None.

Definition set_is_running (b : bool) (st : AutoApplyService) : AutoApplyService :=
  mkService b (applications_today st) (application_history st)
    (last_application_time st).

(** [self.applications_today += 1]. *)
Definition incr_applications_today (st : AutoApplyService) : AutoApplyService :=
  mkService (is_running st) (applications_today st + 1)
    (application_history st) (last_application_time st).

(** The calendar date of an instant. *)
Definition date_of (t : Z) : Z := t / 86400.

(** [_filter_applied_jobs].  Every ledger entry has a [job_id], so the
    comprehension cannot raise and the fallback that returns [jobs]
    unfiltered is not reached. *)
Definition _filter_applied_jobs
    (st : AutoApplyService) (jobs : list JobDetails) : list JobDetails :=
  let applied_job_ids : gset string :=
    list_to_set (job_id <$> application_history st) in
  filter (fun job => jd_id job ∉ applied_job_ids) jobs.

(** [sort(key=lambda x: x.match_score or 0, reverse=True)]: a stable sort,
    highest key first; jobs with equal keys keep their order. *)
Definition sort_key (job : JobDetails) : Q := opt_float_or (jd_match_score job) 0.

Fixpoint insert_desc (job : JobDetails) (sorted : list JobDetails) : list JobDetails :=
  match sorted with
  | [] => [job]
  | other :: rest =>
      if Qlt_bool (sort_key job) (sort_key other)
      then other :: insert_desc job rest
      else job :: other :: rest
  end.

Definition sort_by_score_desc (jobs : list JobDetails) : list JobDetails :=
  foldr insert_desc [] jobs.

(** The list [suitable_jobs] of [_search_suitable_jobs], before it is
    sorted and cut. *)
Definition suitable_jobs
    (settings : Settings) (score : JobDetails -> Q) (request : AutoApplyRequest)
    (new_jobs : list JobDetails) : list JobDetails :=
  let matched_jobs := match_jobs_with settings score new_jobs in
  let min_score := float_or (min_match_score request) 0.7 in
  List.filter
    (fun job => Qle_bool min_score (opt_float_or (jd_match_score job) 0))
    matched_jobs.

(** [_search_suitable_jobs]; [all_jobs] is what the scraper returned, [None]
    when it raised. *)
Definition _search_suitable_jobs
    (settings : Settings) (score : JobDetails -> Q) (request : AutoApplyRequest)
    (all_jobs : option (list JobDetails)) (st : AutoApplyService)
    : list JobDetails :=
  match all_jobs with
  | None => []
  | Some [] => []
  | Some ((_ :: _) as found) =>
      let new_jobs := _filter_applied_jobs st found in
      let suitable := suitable_jobs settings score request new_jobs in
      py_slice_to (int_or (max_applications_per_run request) 5)
        (sort_by_score_desc suitable)
  end.

(** What the collaborators do during one application attempt: the cover
    letter returned ([None] when the generator raises), the answer of the
    bot, the clock, and a pause/stop ([Some false]) or resume ([Some true])
    that arrives while the orchestrator awaits. *)
Record Attempt := mkAttempt {
  cover_letter_reply : option string;
  bot_success : bool;
  now : Z;
  control : option bool
}.

Definition apply_control (c : option bool) (st : AutoApplyService) : AutoApplyService :=
  match c with
  | Some b => set_is_running b st
  | None => st
  end.

(** [_apply_to_job].  When the cover-letter generator raises, the handler
    answers [False] and nothing is recorded; the bot itself never raises. *)
Definition _apply_to_job
    (st : AutoApplyService) (job : JobDetails) (request : AutoApplyRequest)
    (a : Attempt) : bool * AutoApplyService :=
  let generated :=
    if generate_cover_letter request
    then match cover_letter_reply a with
         | Some text => Some (Some text)
         | None => None
         end
    else Some None in
  match generated with
  | None => (false, st)
  | Some cover_letter =>
      let success := bot_success a in
      let application_record :=
        mkRecord (jd_id job) (jd_title job) (jd_company job) (now a) success
          (jd_match_score job)
          (match cover_letter with
           | Some text => str_truthy text
           | None => false
           end)
          None in
      (success,
       mkService (is_running st) (applications_today st)
         (application_history st ++ [application_record]) (Some (now a)))
  end.

(** The [for job in jobs] loop of [start_auto_apply_process]; the [k]-th
    attempt of the cycle meets [world k]. *)
Fixpoint apply_jobs
    (settings : Settings) (request : AutoApplyRequest) (jobs : list JobDetails)
    (world : nat -> Attempt) (k : nat) (st : AutoApplyService)
    : AutoApplyService :=
  match jobs with
  | [] => st
  | job :: rest =>
      if negb (is_running st)
         || Z.leb (MAX_APPLICATIONS_PER_DAY settings) (applications_today st)
      then st
      else
        let (success, st1) := _apply_to_job st job request (world k) in
        let st2 := if success then incr_applications_today st1 else st1 in
        let st3 := apply_control (control (world k)) st2 in
        apply_jobs settings request rest world (S k) st3
  end.

(** What the collaborators do during one pass of the outer loop. *)
Record CycleInput := mkCycle {
  found : option (list JobDetails);
  world : nat -> Attempt;
  control_while_sleeping : option bool
}.

(** The body of the [while] loop of [start_auto_apply_process]. *)
Definition cycle_body
    (settings : Settings) (score : JobDetails -> Q) (request : AutoApplyRequest)
    (c : CycleInput) (st : AutoApplyService) : AutoApplyService :=
  let jobs := _search_suitable_jobs settings score request (found c) st in
  let st' :=
    match jobs with
    | [] => st
    | _ :: _ => apply_jobs settings request jobs (world c) 0 st
    end in
  apply_control (control_while_sleeping c) st'.

(** The guard of the [while] loop. *)
Definition may_continue (settings : Settings) (st : AutoApplyService) : bool :=
  is_running st
  && Z.ltb (applications_today st) (MAX_APPLICATIONS_PER_DAY settings).

(** The [while] loop over the passes observed so far: when the guard fails
    the process completes and clears [is_running]; when the list of passes
    is used up the process is still inside the loop. *)
Fixpoint auto_apply_loop
    (settings : Settings) (score : JobDetails -> Q) (request : AutoApplyRequest)
    (cycles : list CycleInput) (st : AutoApplyService) : AutoApplyService :=
  match cycles with
  | [] => if may_continue settings st then st else set_is_running false st
  | c :: rest =>
      if may_continue settings st
      then auto_apply_loop settings score request rest
             (cycle_body settings score request c st)
      else set_is_running false st
  end.

(** [start_auto_apply_process]; [profile] is the loaded resume, [None] when
    [load_user_profile] raises. *)
Definition start_auto_apply_process
    (settings : Settings) (env : Providers) (profile : option UserProfile)
    (request : AutoApplyRequest) (cycles : list CycleInput)
    (st : AutoApplyService) : AutoApplyService :=
  let st := set_is_running true st in
  match profile with
  | None => set_is_running false st
  | Some loaded =>
      auto_apply_loop settings (_calculate_match_score settings env loaded)
        request cycles st
  end.

(** The list [failed_applications] of [retry_failed_applications]: the
    failed entries of the ledger in ledger order, each with its position,
    since the list holds the very dictionaries of the ledger. *)
Fixpoint failed_from (i : nat) (history : list ApplicationRecord)
    : list (nat * ApplicationRecord) :=
  match history with
  | [] => []
  | app :: rest =>
      if negb (success app)
      then (i, app) :: failed_from (S i) rest
      else failed_from (S i) rest
  end.

Definition failed_applications (history : list ApplicationRecord)
    : list (nat * ApplicationRecord) :=
  failed_from 0 history.

(** The entries [retry_failed_applications] iterates over. *)
Definition retry_selection (max_retries : Z) (history : list ApplicationRecord)
    : list (nat * ApplicationRecord) :=
  py_slice_to max_retries (failed_applications history).

(** [app["success"] = True; app["retried_at"] = now]. *)
Definition mark_retried (t : Z) (app : ApplicationRecord) : ApplicationRecord :=
  mkRecord (job_id app) (job_title app) (company app) (applied_at app) true
    (match_score app) (cover_letter_generated app) (Some t).

Definition update_record (i : nat) (t : Z) (st : AutoApplyService) : AutoApplyService :=
  mkService (is_running st) (applications_today st)
    (alter (mark_retried t) i (application_history st))
    (last_application_time st).

(** The [JobDetails] rebuilt from a ledger entry; [None] when the validator
    of [match_score] refuses the stored score. *)
Definition job_of_record (app : ApplicationRecord) : option JobDetails :=
  if validate_match_score (match_score app)
  then Some (mkJobDetails (job_id app) (job_title app) (company app)
               "" "" "" [] "" "" "" "" (match_score app))
  else None.

(** The [for app in failed_applications[:max_retries]] loop.  The counters
    are [(retried_count, success_count)]; the answer is [None] when the
    loop is left by an exception. *)
Fixpoint retry_loop
    (settings : Settings) (selection : list (nat * ApplicationRecord))
    (world : nat -> Attempt) (k : nat) (counts : Z * Z)
    (st : AutoApplyService) : option (Z * Z) * AutoApplyService :=
  match selection with
  | [] => (Some counts, st)
  | (i, app) :: rest =>
      if Z.leb (MAX_APPLICATIONS_PER_DAY settings) (applications_today st)
      then (Some counts, st)
      else
        match job_of_record app with
        | None => (None, st)
        | Some _ =>
            let a := world k in
            let success := bot_success a in
            let st1 :=
              if success
              then update_record i (now a) (incr_applications_today st)
              else st in
            let counts' :=
              (fst counts + 1, if success then snd counts + 1 else snd counts) in
            let st2 := apply_control (control a) st1 in
            retry_loop settings rest world (S k) counts' st2
        end
  end.

Inductive RetryResult :=
  | NothingToRetry
  | Retried (retried successful : Z)
  | RetryError.

(** [retry_failed_applications]. *)
Definition retry_failed_applications
    (settings : Settings) (max_retries : Z) (world : nat -> Attempt)
    (st : AutoApplyService) : RetryResult * AutoApplyService :=
  let failed := failed_applications (application_history st) in
  match failed with
  | [] => (NothingToRetry, st)
  | _ :: _ =>
      let (counts, st') :=
        retry_loop settings (py_slice_to max_retries failed) world 0 (0, 0) st in
      match counts with
      | Some (retried, successful) => (Retried retried successful, st')
      | None => (RetryError, st')
      end
  end.

(** [pause_auto_apply], [resume_auto_apply], [stop_auto_apply]. *)
Definition pause_auto_apply (st : AutoApplyService) : AutoApplyService :=
  set_is_running false st.

Definition resume_auto_apply (st : AutoApplyService) : AutoApplyService :=
  set_is_running true st.

Definition stop_auto_apply (st : AutoApplyService) : AutoApplyService :=
  set_is_running false st.

(** The dictionary returned by [get_application_stats]. *)
Record ApplicationStats := mkStats {
  stat_total_applications : Z;
  stat_successful_applications : Z;
  stat_success_rate : Q;
  stat_applications_today : Z;
  stat_max_applications_per_day : Z;
  stat_remaining_applications_today : Z;
  stat_average_match_score : Q;
  stat_is_running : bool;
  stat_last_application_time : option Z;
  stat_recent_applications : list ApplicationRecord
}.

(** The list [match_scores] of [get_application_stats]. *)
Definition match_scores (history : list ApplicationRecord) : list Q :=
  omap (fun app =>
          if opt_float_truthy (match_score app) then match_score app else None)
       history.

(** [sum(match_scores) / len(match_scores) if match_scores else 0]. *)
Definition avg_match_score (history : list ApplicationRecord) : Q :=
  match match_scores history with
  | [] => 0%Q
  | scores => (py_sum scores / inject_Z (Z.of_nat (length scores)))%Q
  end.

(** [get_application_stats], called at instant [t].  The entries of the
    ledger have all the keys read here and a well-formed [applied_at], so
    the dictionary of the error case is not reached. *)
Definition get_application_stats
    (settings : Settings) (t : Z) (st : AutoApplyService) : ApplicationStats :=
  let history := application_history st in
  let total_applications := Z.of_nat (length history) in
  let successful_applications := Z.of_nat (length (List.filter success history)) in
  let today := date_of t in
  let todays_applications :=
    List.filter (fun app => Z.eqb (date_of (applied_at app)) today) history in
  let success_rate :=
    if Z.ltb 0 total_applications
    then (inject_Z successful_applications / inject_Z total_applications * 100)%Q
    else 0%Q in
  let cutoff_time := t - 24 * 3600 in
  let recent_applications :=
    List.filter (fun app => Z.ltb cutoff_time (applied_at app)) history in
  mkStats total_applications successful_applications
    (py_round success_rate 1)
    (Z.of_nat (length todays_applications))
    (MAX_APPLICATIONS_PER_DAY settings)
    (Z.max 0 (MAX_APPLICATIONS_PER_DAY settings
              - Z.of_nat (length todays_applications)))
    (py_round (avg_match_score history) 2)
    (is_running st)
    (last_application_time st)
    (py_last_n 10 recent_applications).

(** The operations a caller performs on one service, in sequence. *)
Inductive Operation :=
  | OpStart (env : Providers) (profile : option UserProfile)
            (request : AutoApplyRequest) (cycles : list CycleInput)
  | OpRetry (max_retries : Z) (world : nat -> Attempt)
  | OpPause
  | OpResume
  | OpStop.

Definition run_operation
    (settings : Settings) (st : AutoApplyService) (op : Operation)
    : AutoApplyService :=
  match op with
  | OpStart env profile request cycles =>
      start_auto_apply_process settings env profile request cycles st
  | OpRetry max_retries world =>
      snd (retry_failed_applications settings max_retries world st)
  | OpPause => pause_auto_apply st
  | OpResume => resume_auto_apply st
  | OpStop => stop_auto_apply st
  end.

Definition run_operations
    (settings : Settings) (ops : list Operation) (st : AutoApplyService)
    : AutoApplyService :=
  foldl (run_operation settings) st ops.

(** The number of ledger entries recorded as successful. *)
Definition successful_count (history : list ApplicationRecord) : Z :=
  Z.of_nat (length (List.filter success history)).

(** ** Further operations of the services *)

(** [sorted(..., key=lambda x: x["applied_at"], reverse=True)]: a stable
    sort, latest instant first.  The key is the ISO-8601 text of the
    instant, whose order is the order of the instants. *)
Fixpoint insert_recent (app : ApplicationRecord) (sorted : list ApplicationRecord)
    : list ApplicationRecord :=
  match sorted with
  | [] => [app]
  | other :: rest =>
      if Z.ltb (applied_at app) (applied_at other)
      then other :: insert_recent app rest
      else app :: other :: rest
  end.

Definition sorted_history (history : list ApplicationRecord)
    : list ApplicationRecord :=
  foldr insert_recent [] history.

(** [get_application_history].  The ledger entries all have the key
    [applied_at], so the empty list of the error case is not reached. *)
Definition get_application_history (limit : Z) (st : AutoApplyService)
    : list ApplicationRecord :=
  py_slice_to limit (sorted_history (application_history st)).

(** [_get_recommendation]. *)
Definition _get_recommendation (score : Q) : string :=
  if Qle_bool 0.8 score then "Excellent match! Highly recommended to apply."
  else if Qle_bool 0.6 score
  then "Good match. Consider applying with a tailored cover letter."
  else if Qle_bool 0.4 score
  then "Moderate match. Review requirements carefully before applying."
  else "Low match. Consider developing additional skills before applying.".

(** The dictionary returned by [get_match_explanation]; the list
    [matching_skills], built from a set, is kept as a set. *)
Record MatchExplanation := mkExplanation {
  overall_score : option Q;
  semantic_similarity : Q;
  skills_match : Q;
  experience_match : Q;
  location_match : Q;
  matching_skills : gset string;
  recommendation : string
}.

(** [get_match_explanation]; [None] is the error dictionary returned when
    no profile is loaded. *)
Definition get_match_explanation
    (env : Providers) (profile : option UserProfile) (job : JobDetails)
    : option MatchExplanation :=
  match profile with
  | None => None
  | Some loaded =>
      let job_text := _create_job_text job in
      let semantic_score := _calculate_semantic_similarity env loaded job_text in
      let skills_score := _calculate_skills_match loaded job in
      let experience_score := _calculate_experience_match loaded job in
      let location_score := _calculate_location_match loaded job in
      let user_skills : gset string := list_to_set (lower <$> up_skills loaded) in
      let job_requirements : gset string :=
        list_to_set (lower <$> jd_requirements job) in
      Some (mkExplanation (jd_match_score job) semantic_score skills_score
              experience_score location_score
              (user_skills ∩ job_requirements)
              (_get_recommendation (opt_float_or (jd_match_score job) 0)))
  end.

(** *** The form handler and the search-and-apply loop of the bot *)

Definition cover_letter_fields : list string :=
  [ "//textarea[contains(@name, 'cover')]";
    "//textarea[contains(@id, 'cover')]";
    "//textarea[contains(@placeholder, 'cover')]" ].

Definition message_fields : list string :=
  [ "//textarea[contains(@name, 'message')]";
    "//textarea[contains(@id, 'message')]";
    "//textarea[contains(@placeholder, 'message')]" ].

(** Truth value of an optional string ([None] and [""] are false). *)
Definition opt_str_truthy (s : option string) : bool :=
  match s with
  | Some text => str_truthy text
  | None => false
  end.

(** One [for selector in ...] loop of [_handle_application_form]: type the
    text into the first field found and stop; a selector without element is
    skipped; [None] stands for any other exception.  [human_type] is
    [_human_type], which catches its own exceptions. *)
Fixpoint type_into_first {Page Element : Type}
    (ch : Channel Page Element) (human_type : Element -> string -> Page -> Page)
    (selectors : list string) (text : string) (p : Page)
    : option (bool * Page) :=
  match selectors with
  | [] => Some (false, p)
  | selector :: rest =>
      match find_element ch XPATH selector p with
      | Found field => Some (true, human_type field text p)
      | NoSuchElement => type_into_first ch human_type rest text p
      | OtherError => None
      end
  end.

(** The body of [_handle_application_form], over the primitives of the
    driver. *)
Definition handle_application_form_body {Page Element : Type}
    (ch : Channel Page Element) (human_type : Element -> string -> Page -> Page)
    (cover_letter custom_msg : option string) (p : Page) : bool * Page :=
  let cover_step :=
    if opt_str_truthy cover_letter
    then type_into_first ch human_type cover_letter_fields
           (default "" cover_letter) p
    else Some (false, p) in
  match cover_step with
  | None => (false, p)
  | Some (cover_handled, p1) =>
      let message_step :=
        if opt_str_truthy custom_msg
        then type_into_first ch human_type message_fields
               (default "" custom_msg) p1
        else Some (false, p1) in
      match message_step with
      | None => (false, p1)
      | Some (message_handled, p2) => (cover_handled || message_handled, p2)
      end
  end.

(** The result page of a job search, as [search_and_apply_jobs] uses it:
    [open_search] goes to the jobs page, waits for the search box, types
    the keywords and submits ([None] when any of this raises); [job_cards]
    lists the result cards; [card_click] reports whether the click returned
    normally; [card_title] reads the title of a card for the mock job
    built from it ([None] when reading the title or the current URL
    raises). *)
Record Listing (Page Card : Type) := mkListing {
  open_search : string -> Page -> option Page;
  job_cards : Page -> option (list Card);
  card_click : Card -> Page -> bool * Page;
  card_title : Card -> Page -> option string
}.
Arguments open_search {Page Card} _ _ _.
Arguments job_cards {Page Card} _ _.
Arguments card_click {Page Card} _ _ _.
Arguments card_title {Page Card} _ _ _.

(** The [for card in job_cards[:max_applications * 2]] loop. *)
Fixpoint apply_to_cards {Page Element Card : Type}
    (ch : Channel Page Element) (li : Listing Page Card) (cards : list Card)
    (max_applications applications_sent : Z) (p : Page) : Z * Page :=
  match cards with
  | [] => (applications_sent, p)
  | card :: rest =>
      if Z.leb max_applications applications_sent then (applications_sent, p)
      else
        let (clicked, p1) := card_click li card p in
        if negb clicked
        then apply_to_cards ch li rest max_applications applications_sent p1
        else
          let (apply_clicked, p2) := _click_apply_button ch (wait ch p1) in
          if apply_clicked
          then
            match card_title li card p2 with
            | None =>
                apply_to_cards ch li rest max_applications applications_sent p2
            | Some _ =>
                let '(success, _, p3) :=
                  _handle_application_process ch None None p2 in
                apply_to_cards ch li rest max_applications
                  (if success then applications_sent + 1 else applications_sent)
                  (wait ch p3)
            end
          else
            apply_to_cards ch li rest max_applications applications_sent
              (wait ch p2)
  end.

Inductive SearchApplyResult :=
  | LoginFailed
  | SearchFailed
  | ApplicationsSent (n : Z).

(** [search_and_apply_jobs]. *)
Definition search_and_apply_jobs {Page Element Card : Type}
    (ch : Channel Page Element) (li : Listing Page Card)
    (bot : LinkedInBot Page) (keywords : string) (max_applications : Z)
    : SearchApplyResult * LinkedInBot Page :=
  let (logged, p0) :=
    if is_logged_in bot then (true, driver bot) else login ch (driver bot) in
  if negb logged
  then (LoginFailed, mkBot (SELENIUM_AVAILABLE bot) false p0)
  else
    match open_search li keywords p0 with
    | None => (SearchFailed, mkBot (SELENIUM_AVAILABLE bot) true p0)
    | Some p1 =>
        match job_cards li (wait ch p1) with
        | None => (SearchFailed, mkBot (SELENIUM_AVAILABLE bot) true (wait ch p1))
        | Some cards =>
            let (sent, p2) :=
              apply_to_cards ch li (py_slice_to (max_applications * 2) cards)
                max_applications 0 (wait ch p1) in
            (ApplicationsSent sent, mkBot (SELENIUM_AVAILABLE bot) true p2)
        end
    end.

(** ** Job discovery ([app/services/job_scraper.py]) *)

(** [s.replace(' ', '%20')]. *)
Fixpoint replace_spaces (s : string) : string :=
  match s with
  | EmptyString => EmptyString
  | String c rest =>
      if Ascii.eqb c (Ascii.ascii_of_N 32) then "%20" +:+ replace_spaces rest
      else String c (replace_spaces rest)
  end.

Definition exp_mapping : gmap string string :=
  <["entry" := "1"]> (<["associate" := "2"]> (<["mid" := "3"]>
    (<["senior" := "4"]> (<["executive" := "5"]> ∅)))).

Definition type_mapping : gmap string string :=
  <["full-time" := "F"]> (<["part-time" := "P"]> (<["contract" := "C"]>
    (<["temporary" := "T"]> (<["internship" := "I"]> ∅)))).

(** One optional filter of the URL: [if value: if value.lower() in
    mapping: params.append(f"{name}={mapping[value.lower()]}")]. *)
Definition mapped_param (name : string) (mapping : gmap string string)
    (value : option string) : list string :=
  if opt_str_truthy value
  then match mapping !! lower (default "" value) with
       | Some code => [name +:+ "=" +:+ code]
       | None => []
       end
  else [].

(** [_build_search_url]. *)
Definition _build_search_url (keywords location : string)
    (experience_level job_type company : option string) : string :=
  let base_url := "https://www.linkedin.com/jobs/search/?" in
  let params :=
    (if str_truthy keywords
     then ["keywords=" +:+ replace_spaces keywords] else [])
    ++ (if str_truthy location
        then ["location=" +:+ replace_spaces location] else [])
    ++ (if opt_str_truthy company
        then ["f_C=" +:+ replace_spaces (default "" company)] else [])
    ++ mapped_param "f_E" exp_mapping experience_level
    ++ mapped_param "f_JT" type_mapping job_type in
  base_url +:+ join "&" params.

(** The [JobDetails(...)] call in the loop of [_get_mock_jobs], for the
    loop index [i]; [None] stands for the [ValueError] of the validator. *)
Definition mock_job (keywords : string) (i : nat) : option JobDetails :=
  let match_score := Some (0.8 - inject_Z (Z.of_nat i) * 0.1)%Q in
  if validate_match_score match_score
  then Some (mkJobDetails
               ("mock_job_" +:+ pretty (i + 1)%nat)
               (keywords +:+ " Engineer")
               ("Tech Company " +:+ pretty (i + 1)%nat)
               "San Francisco, CA"
               ("https://linkedin.com/jobs/view/mock_" +:+ pretty (i + 1)%nat)
               ("Exciting opportunity to work as a " +:+ keywords
                +:+ " engineer at a leading tech company.")
               ["Python"; "FastAPI"; "SQL"; "Git"]
               "$80,000 - $120,000" "Full-time" "Mid-level" "2 days ago"
               match_score)
  else None.

(** [_get_mock_jobs]: [for i in range(min(limit, 5))]. *)
Definition _get_mock_jobs (keywords : string) (limit : Z)
    : option (list JobDetails) :=
  mapM (mock_job keywords) (seq 0 (Z.to_nat (Z.min limit 5))).

(** [search_jobs].  Without Selenium the mock postings are returned.  With
    it, [live url limit] stands for the browser session (driver set-up,
    login, loading the URL and extracting up to [limit] cards), [None] when
    any of it raises, in which case the list stays empty. *)
Definition search_jobs (selenium_available : bool)
    (live : string -> Z -> option (list JobDetails))
    (keywords location : string)
    (experience_level job_type company : option string) (limit : Z)
    : option (list JobDetails) :=
  if negb selenium_available then _get_mock_jobs keywords limit
  else
    let search_url :=
      _build_search_url keywords location experience_level job_type company in
    Some (default [] (live search_url limit)).

(** ** The matching endpoint ([app/routes/jobs.py]) *)

(** [JobSearchRequest.validate_limit]. *)
Definition validate_limit (v : Z) : bool := negb (Z.ltb v 1 || Z.ltb 100 v).

(** [match_jobs_to_profile] after the search answered [found].  The matcher
    of the endpoint is fresh, so [match_jobs] loads the resume first;
    [resume] is [None] when that raises, and [match_jobs] then returns the
    postings it was given. *)
Definition match_jobs_to_profile (settings : Settings) (env : Providers)
    (resume : option UserProfile) (found : list JobDetails) (limit : Z)
    : list JobDetails :=
  let matched_jobs :=
    match resume with
    | Some profile => match_jobs settings env profile found
    | None => found
    end in
  py_slice_to (int_or limit 20) (sort_by_score_desc matched_jobs).

(** ** Cover-letter validation ([app/services/cover_letter_generator.py]) *)

Record ValidationResults := mkValidation {
  vr_is_valid : bool;
  vr_issues : list string;
  vr_suggestions : list string;
  vr_score : Q
}.

Definition generic_phrases : list string :=
  ["to whom it may concern"; "dear sir/madam"; "i am writing to apply"].

(** [validate_cover_letter].  [split] is [str.split()], the words of the
    letter.  No call of the body raises on a string, so the error case is
    not reached. *)
Definition validate_cover_letter (split : string -> list string)
    (cover_letter : string) : ValidationResults :=
  let word_count := Z.of_nat (length (split cover_letter)) in
  let '(issues, suggestions) :=
    if Z.ltb word_count 150
    then (["Cover letter is too short"],
          ["Add more details about your experience and interest"])
    else if Z.ltb 500 word_count
    then (["Cover letter is too long"], ["Condense to 3-4 paragraphs"])
    else ([], []) in
  let placeholders := str_in "{" cover_letter && str_in "}" cover_letter in
  let issues :=
    if placeholders then issues ++ ["Contains unfilled placeholders"]
    else issues in
  let is_valid := negb placeholders in
  let suggestions :=
    if any_in generic_phrases (lower cover_letter)
    then suggestions ++ ["Consider making the greeting more specific"]
    else suggestions in
  let score :=
    (1 - inject_Z (Z.of_nat (length issues)) * 0.2
       - inject_Z (Z.of_nat (length suggestions)) * 0.1)%Q in
  mkValidation is_valid issues suggestions (py_max 0 score).

(** ** The embeddings cache ([app/utils/vectorstore.py]) *)

Module VectorStoreService.

(** The OpenAI client as the two embedding functions use it:
    [embedding_create model text] is
    [openai.Embedding.create(model, input=text)['data'][0]['embedding']]
    and [embedding_create_batch model texts] the list
    [response['data']] with each item read at ['embedding']; [None] where
    the call or the access raises. *)
Record Api := mkApi {
  embedding_create : string -> string -> option (list Q);
  embedding_create_batch :
    string -> list string -> option (list (option (list Q)))
}.

Section Service.
Context (settings : Settings) (VECTOR_DIMENSION : Z) (OPENAI_AVAILABLE : bool).
(** [hash(text)], fixed for the life of the process. *)
Context (hash : string -> Z).

(** [f"{model}:{hash(text)}"]. *)
Definition cache_key (model text : string) : string :=
  model +:+ ":" +:+ pretty (hash text).

(** [[0.0] * settings.VECTOR_DIMENSION]. *)
Definition dummy_embedding : list Q :=
  replicate (Z.to_nat VECTOR_DIMENSION) 0%Q.

Definition api_enabled : bool :=
  str_truthy (OPENAI_API_KEY settings) && OPENAI_AVAILABLE.

(** [generate_embedding]: the answer and the cache afterwards.
    [_save_cache] catches its own exceptions and writes only the file. *)
Definition generate_embedding (api : Api)
    (embeddings_cache : gmap string (list Q)) (text model : string)
    : list Q * gmap string (list Q) :=
  let key := cache_key model text in
  match embeddings_cache !! key with
  | Some cached => (cached, embeddings_cache)
  | None =>
      if negb api_enabled then (dummy_embedding, embeddings_cache)
      else
        match embedding_create api model text with
        | Some embedding => (embedding, <[key := embedding]> embeddings_cache)
        | None => (dummy_embedding, embeddings_cache)
        end
  end.

(** The first loop of [generate_embeddings_batch]: the list [embeddings]
    with [None] for the texts without cache entry, and these texts with
    their indices ([uncached_indices] and [uncached_texts], kept in
    step). *)
Definition cached_embeddings (embeddings_cache : gmap string (list Q))
    (model : string) (texts : list string) : list (option (list Q)) :=
  (fun text => embeddings_cache !! cache_key model text) <$> texts.

Definition uncached (embeddings_cache : gmap string (list Q))
    (model : string) (texts : list string) : list (nat * string) :=
  List.filter
    (fun '(_, text) =>
       bool_decide (embeddings_cache !! cache_key model text = None))
    (imap pair texts).

(** The loop over [response['data']]: item [i] is stored at
    [uncached_indices[i]] and cached under the key of [uncached_texts[i]];
    the loop is left by an exception at an item that cannot be read or has
    no partner. *)
Fixpoint store_batch (model : string) (data : list (option (list Q)))
    (uncached_items : list (nat * string))
    (embeddings : list (option (list Q)))
    (embeddings_cache : gmap string (list Q))
    : list (option (list Q)) * gmap string (list Q) :=
  match data, uncached_items with
  | Some embedding :: data', (original_index, text) :: items' =>
      store_batch model data' items'
        (<[original_index := Some embedding]> embeddings)
        (<[cache_key model text := embedding]> embeddings_cache)
  | _, _ => (embeddings, embeddings_cache)
  end.

(** [generate_embeddings_batch].  Whether the loop above ends normally or
    by an exception, every entry still [None] receives the dummy
    embedding. *)
Definition generate_embeddings_batch (api : Api)
    (embeddings_cache : gmap string (list Q)) (texts : list string)
    (model : string) : list (list Q) * gmap string (list Q) :=
  let embeddings := cached_embeddings embeddings_cache model texts in
  let uncached_items := uncached embeddings_cache model texts in
  let '(embeddings, embeddings_cache) :=
    match uncached_items with
    | [] => (embeddings, embeddings_cache)
    | _ :: _ =>
        if api_enabled
        then match embedding_create_batch api model uncached_items.*2 with
             | Some data =>
                 store_batch model data uncached_items embeddings
                   embeddings_cache
             | None => (embeddings, embeddings_cache)
             end
        else (embeddings, embeddings_cache)
    end in
  (default dummy_embedding <$> embeddings, embeddings_cache).

(** [clear_cache]. *)
Definition clear_cache (embeddings_cache : gmap string (list Q))
    : gmap string (list Q) := ∅.

(** One embedding request with the client as it answers at that time. *)
Inductive Request :=
  | Embed (api : Api) (text model : string)
  | EmbedBatch (api : Api) (texts : list string) (model : string).

Definition serve (embeddings_cache : gmap string (list Q)) (req : Request)
    : gmap string (list Q) :=
  match req with
  | Embed api text model =>
      (generate_embedding api embeddings_cache text model).2
  | EmbedBatch api texts model =>
      (generate_embeddings_batch api embeddings_cache texts model).2
  end.

Definition serve_all (embeddings_cache : gmap string (list Q))
    (reqs : list Request) : gmap string (list Q) :=
  foldl serve embeddings_cache reqs.

End Service.

End VectorStoreService.

(** ** Notions used to state the properties *)

(** A posting with its computed score stored on it. *)
Definition scored (score : JobDetails -> Q) (job : JobDetails) : JobDetails :=
  set_match_score job (score job).

(** The counter of the service agrees with the ledger and respects the
    daily ceiling (a negative ceiling allows nothing, like zero). *)
Definition ledger_consistent (settings : Settings) (st : AutoApplyService) : Prop :=
  successful_count (application_history st) = applications_today st
  /\ applications_today st <= Z.max 0 (MAX_APPLICATIONS_PER_DAY settings).

(** Every reference of a retry selection points to a failed entry of the
    ledger, and no entry is referred to twice. *)
Definition refers_to_failed
    (history : list ApplicationRecord) (ref : nat * ApplicationRecord) : Prop :=
  exists app, history !! ref.1 = Some app /\ success app = false.

Definition selection_ok
    (history : list ApplicationRecord)
    (selection : list (nat * ApplicationRecord)) : Prop :=
  Forall (refers_to_failed history) selection /\ NoDup selection.*1.

(** A list of records is ordered most-recent-first. *)
Definition most_recent_first (records : list ApplicationRecord) : Prop :=
  forall (i j : nat) (a b : ApplicationRecord),
    (i < j)%nat -> records !! i = Some a -> records !! j = Some b ->
    applied_at b <= applied_at a.

(** The keys of the dictionary written by [_apply_to_job]. *)
Definition written_keys : gset string :=
  {[ "job_id"; "job_title"; "company"; "applied_at"; "success";
     "match_score"; "cover_letter_generated" ]}.

(** The branches after which the loop goes on, and those after which it
    returns [True]. *)
Definition continues (a : step_action) : bool :=
  match a with
  | FormFilled | QuestionsAnswered | NextClicked => true
  | SubmitClicked | AlreadySubmitted | Stuck => false
  end.

Definition confirms (a : step_action) : bool :=
  match a with
  | SubmitClicked | AlreadySubmitted => true
  | FormFilled | QuestionsAnswered | NextClicked | Stuck => false
  end.

(** Whether the last pass of a run returned [True]. *)
Definition ends_confirmed (trace : list step_action) : bool :=
  match last trace with
  | Some a => confirms a
  | None => false
  end.

(** The records whose stored match score is truthy (neither [None] nor
    zero), and the mean of their scores, zero when there is none. *)
Definition truthy_scored_records (history : list ApplicationRecord)
    : list ApplicationRecord :=
  List.filter (fun app => opt_float_truthy (match_score app)) history.

Definition mean_of_truthy_scores (history : list ApplicationRecord) : Q :=
  match truthy_scored_records history with
  | [] => 0%Q
  | (_ :: _) as records =>
      (py_sum ((fun app => default 0%Q (match_score app)) <$> records)
       / inject_Z (Z.of_nat (length records)))%Q
  end.

Definition set_history (history : list ApplicationRecord) (st : AutoApplyService)
    : AutoApplyService :=
  mkService (is_running st) (applications_today st) history
    (last_application_time st).

(** ** Notions used to state further properties of the ledger *)

(** What may happen to a ledger entry over time: nothing, or, for a failed
    entry, the marking of a successful retry. *)
Definition evolves (r r' : ApplicationRecord) : Prop :=
  r' = r \/ (success r = false /\ exists t, r' = mark_retried t r).

(** The ledger [h'] continues the ledger [h]: the entries of [h] are still
    there, in place and in order, each evolved, followed by new ones. *)
Definition ledger_extends (h h' : list ApplicationRecord) : Prop :=
  exists kept added, h' = kept ++ added /\ Forall2 evolves h kept.

(** Every discovery made during a start lists each posting once. *)
Definition distinct_discoveries (op : Operation) : Prop :=
  match op with
  | OpStart _ _ _ cycles =>
      Forall (fun c =>
                match found c with
                | Some jobs => NoDup (jd_id <$> jobs)
                | None => True
                end) cycles
  | _ => True
  end.

(** The request of a start passed the validators of [AutoApplyRequest]. *)
Definition valid_start (op : Operation) : Prop :=
  match op with
  | OpStart _ _ request _ => valid_request request = true
  | _ => True
  end.

(** The stored score of a ledger entry is a number in the interval
    (0, 1]. *)
Definition score_in_range (r : ApplicationRecord) : Prop :=
  exists q, match_score r = Some q /\ (0 < q)%Q /\ (q <= 1)%Q.

(** The identifiers of the postings the ledger has an entry for. *)
Definition ledger_ids (st : AutoApplyService) : list string :=
  job_id <$> application_history st.

(** The score stored on a posting is a number in the interval (0, 1]. *)
Definition job_score_in_range (job : JobDetails) : Prop :=
  exists q, jd_match_score job = Some q /\ (0 < q)%Q /\ (q <= 1)%Q.

(** The weighted sum of the four scores an explanation lists. *)
Definition weighted_breakdown (e : MatchExplanation) : Q :=
  (semantic_similarity e * 0.3 + skills_match e * 0.3
   + experience_match e * 0.2 + location_match e * 0.1)%Q.

(** The lowercased skills of a profile. *)
Definition user_skill_set (profile : UserProfile) : gset string :=
  list_to_set (lower <$> up_skills profile).

(** The number of passes of a run that clicked Submit. *)
Definition submit_clicks (trace : list step_action) : nat :=
  length (List.filter
            (fun a => match a with SubmitClicked => true | _ => false end)
            trace).

(** Whether a string contains a space character. *)
Fixpoint has_space (s : string) : bool :=
  match s with
  | EmptyString => false
  | String c rest => Ascii.eqb c (Ascii.ascii_of_N 32) || has_space rest
  end.

(** ** Concrete inputs used by the examples below *)

(** A candidate with one skill, no position held and a declared city. *)
Definition profile_cobol : UserProfile :=
  mkUserProfile ["Cobol"] [] "Paris" [1%Q; 0%Q].

(** Providers with every library present: the embedding of the posting is
    opposite to the one of the profile (cosine similarity [-1]) and the
    judge answers [0.0]. *)
Definition env_opposite : Providers :=
  mkProviders true true true
    (fun _ => [(-1)%Q; 0%Q])
    (fun _ _ => Some (-1)%Q)
    (fun _ _ => Some 0%Q).

Definition settings_with_key : Settings := mkSettings 50 0.8%Q "sk-test".

(** A senior, on-site posting that asks for a skill the candidate lacks. *)
Definition job_rust : JobDetails :=
  mkJobDetails "job-1" "Systems engineer" "Acme" "Berlin" "https://jobs/1"
    "We use Python" ["Rust"] "" "full-time" "Senior" "" None.

(** The postings of the ranking scenario: A scores 0.9, B 0.5, C 0.75. *)
Definition posting (ident : string) : JobDetails :=
  mkJobDetails ident ("Engineer " +:+ ident) "Acme" "Berlin"
    ("https://jobs/" +:+ ident) "" [] "" "" "" "" None.

Definition job_A : JobDetails := posting "A".
Definition job_B : JobDetails := posting "B".
Definition job_C : JobDetails := posting "C".

Definition score_ABC (job : JobDetails) : Q :=
  if String.eqb (jd_id job) "A" then 0.9%Q
  else if String.eqb (jd_id job) "B" then 0.5%Q
  else 0.75%Q.

(** A run with threshold 0.7, at most two applications per pass and no
    cover letter. *)
Definition request_07 : AutoApplyRequest := mkAutoApplyRequest 2 0.7%Q false "".

(** A candidate who fits the posting [job_python] on every signal, with
    providers that agree. *)
Definition profile_python : UserProfile :=
  mkUserProfile ["Python"] [("Developer", "Initech")] "Berlin" [1%Q; 0%Q].

Definition env_agreeing : Providers :=
  mkProviders true true true
    (fun _ => [1%Q; 0%Q])
    (fun _ _ => Some 1%Q)
    (fun _ _ => Some 1%Q).

Definition job_python (ident : string) : JobDetails :=
  mkJobDetails ident "Python developer" "Acme" "Berlin"
    ("https://jobs/" +:+ ident) "" ["Python"] "" "full-time" "entry" "" None.

(** A daily ceiling of one application. *)
Definition settings_ceiling_1 : Settings := mkSettings 1 0.7%Q "sk-test".

(** Day 0 and day 3. *)
Definition instant_day_0 : Z := 1000.
Definition instant_day_3 : Z := 3 * 86400 + 1000.

(** Collaborators that always succeed at a given instant. *)
Definition world_succeeding (t : Z) : nat -> Attempt :=
  fun _ => mkAttempt (Some "Dear hiring team") true t None.

(** One pass of the main loop on day 0 that discovers two fitting postings,
    and a later start on day 3 that discovers a third one. *)
Definition start_on_day_0 : Operation :=
  OpStart env_agreeing (Some profile_python) request_07
    [mkCycle (Some [job_python "P1"; job_python "P2"])
       (world_succeeding instant_day_0) None].

Definition start_on_day_3 : Operation :=
  OpStart env_agreeing (Some profile_python) request_07
    [mkCycle (Some [job_python "P3"])
       (world_succeeding instant_day_3) None].

Definition service_after_day_0 : AutoApplyService :=
  run_operations settings_ceiling_1 [start_on_day_0] new_service.

(** A scripted browser: the page is the number of clicks made so far,
    an element is the selector that found it, [present] tells which
    selectors find an enabled element on which page and [source] is the
    page source.  Nothing raises, the form handlers find nothing to do. *)
Definition scripted_channel
    (present : string -> nat -> bool) (source : nat -> string)
    : Channel nat string :=
  mkChannel nat string
    (fun _ selector p => if present selector p then Found selector else NoSuchElement)
    (fun _ _ => Some true)
    (fun _ p => (true, S p))
    (fun p => Some (source p))
    (fun _ p => (true, p))
    (fun p => p)
    (fun _ _ p => (false, p))
    (fun p => (false, p))
    (fun p => (true, p)).

(** Every page shows an Apply button and a Next button, never a Submit
    button, never a confirmation. *)
Definition channel_next_only : Channel nat string :=
  scripted_channel
    (fun selector _ =>
       String.eqb selector "//button[contains(@class, 'jobs-apply-button')]"
       || String.eqb selector "//button[contains(text(), 'Next')]")
    (fun _ => "<html><body>Step</body></html>").

(** Every page shows an Apply button and an enabled Submit button; no page
    ever shows a confirmation. *)
Definition channel_submit_no_confirmation : Channel nat string :=
  scripted_channel
    (fun selector _ =>
       String.eqb selector "//button[contains(@class, 'jobs-apply-button')]"
       || String.eqb selector "//button[contains(text(), 'Submit')]")
    (fun _ => "<html><body>Review your application</body></html>").

(** A page that already shows the confirmation, with no button. *)
Definition channel_already_confirmed : Channel nat string :=
  scripted_channel
    (fun _ _ => false)
    (fun _ => "<html><body>Application Submitted</body></html>").

(** Ledger entries for the retry and statistics examples. *)
Definition entry (ident : string) (t : Z) (ok : bool) (score : option Q)
    : ApplicationRecord :=
  mkRecord ident ("Engineer " +:+ ident) "Acme" t ok score false None.

(** Two failed entries, X older than Y. *)
Definition entry_X : ApplicationRecord := entry "X" 100 false (Some 0.9%Q).
Definition entry_Y : ApplicationRecord := entry "Y" 200 false (Some 0.8%Q).
Definition ledger_two_failed : list ApplicationRecord := [entry_X; entry_Y].

(** A ledger whose entries all carry a zero or missing score, and one with
    a single non-zero score among them. *)
Definition ledger_zero_scores : list ApplicationRecord :=
  [entry "Z1" 100 true (Some 0%Q); entry "Z2" 200 false None].

Definition ledger_mixed_scores : list ApplicationRecord :=
  [entry "Z1" 100 true (Some 0%Q); entry "M" 150 true (Some 0.8%Q);
   entry "Z2" 200 false None].

(** The attempt in which the bot meets [channel_next_only]. *)
Definition attempt_next_only : Attempt :=
  mkAttempt (Some "Dear hiring team")
    (fst (apply_to_job channel_next_only (mkBot true true 0%nat)
            (job_python "P1") (Some "Dear hiring team") None))
    instant_day_0 None.

(** A service whose ledger holds one submitted application, for X. *)
Definition service_with_X : AutoApplyService :=
  set_history [entry "X" 100 true (Some 0.9%Q)] new_service.

(** ** Concrete inputs for the further properties *)

(** Collaborators whose bot always fails at a given instant, and a start on
    day 0 that meets them. *)
Definition world_failing (t : Z) : nat -> Attempt :=
  fun _ => mkAttempt (Some "Dear hiring team") false t None.

Definition start_failing_on_day_0 : Operation :=
  OpStart env_agreeing (Some profile_python) request_07
    [mkCycle (Some [job_python "P1"; job_python "P2"])
       (world_failing instant_day_0) None].

(** A form whose only text area is the cover-letter field found by its
    [id]; typing moves to the next page state. *)
Definition channel_cover_field : Channel nat string :=
  scripted_channel
    (fun selector _ => String.eqb selector "//textarea[contains(@id, 'cover')]")
    (fun _ => "<html><body>Your application</body></html>").

Definition typing : string -> string -> nat -> nat := fun _ _ p => S p.

(** A bot with Selenium that has not logged in yet. *)
Definition bot_logged_out : LinkedInBot nat := mkBot true false 0%nat.

(** ** Properties of the Python built-ins *)

Lemma Qlt_bool_iff (a b : Q) : Qlt_bool a b = true <-> (a < b)%Q.
Proof.
  unfold Qlt_bool. rewrite negb_true_iff.
  split.
  - intros H. apply Qnot_le_lt. intros Hle.
    apply Qle_bool_iff in Hle. congruence.
  - intros H. destruct (Qle_bool b a) eqn:E; [|reflexivity].
    apply Qle_bool_iff in E. apply Qlt_not_le in H. contradiction.
Qed.

Lemma Qlt_bool_false_iff (a b : Q) : Qlt_bool a b = false <-> (b <= a)%Q.
Proof.
  unfold Qlt_bool. rewrite negb_false_iff. apply Qle_bool_iff.
Qed.

Lemma py_min_le_l (a b : Q) : (py_min a b <= a)%Q.
Proof.
  unfold py_min. destruct (Qlt_bool b a) eqn:E.
  - apply Qlt_bool_iff in E. lra.
  - lra.
Qed.

Lemma py_min_le_r (a b : Q) : (py_min a b <= b)%Q.
Proof.
  unfold py_min. destruct (Qlt_bool b a) eqn:E.
  - lra.
  - apply Qlt_bool_false_iff in E. lra.
Qed.

Lemma py_min_ge (a b c : Q) : (c <= a -> c <= b -> c <= py_min a b)%Q.
Proof. unfold py_min. destruct (Qlt_bool b a); auto. Qed.

Lemma py_max_ge_l (a b : Q) : (a <= py_max a b)%Q.
Proof.
  unfold py_max. destruct (Qlt_bool a b) eqn:E.
  - apply Qlt_bool_iff in E. lra.
  - lra.
Qed.

Lemma py_max_le (a b c : Q) : (a <= c -> b <= c -> py_max a b <= c)%Q.
Proof. unfold py_max. destruct (Qlt_bool a b); auto. Qed.

(** ** The scoring engine *)

Section Scoring.
Context (settings : Settings) (env : Providers) (profile : UserProfile).

(** The judge's score is clamped on both sides. *)
Lemma ai_match_score_range (job_text : string) :
  (0 <= _calculate_ai_match_score settings env profile job_text <= 1)%Q.
Proof.
  unfold _calculate_ai_match_score.
  destruct (negb _ || negb _); [lra|].
  destruct (chat_score _ _ _) as [score|]; [|lra].
  split.
  - apply py_max_ge_l.
  - apply py_max_le; [lra | apply py_min_le_l].
Qed.

Lemma skills_match_range (job : JobDetails) :
  (0 <= _calculate_skills_match profile job <= 1)%Q.
Proof.
  unfold _calculate_skills_match.
  destruct (Nat.eqb_spec (size (job_skills_of job)) 0) as [|Hne]; [lra|].
  split; [|apply py_min_le_r].
  apply py_min_ge; [|lra].
  apply Qle_shift_div_l.
  - replace 0%Q with (inject_Z 0) by reflexivity.
    rewrite <- Zlt_Qlt. lia.
  - rewrite Qmult_0_l.
    replace 0%Q with (inject_Z 0) by reflexivity.
    rewrite <- Zle_Qle. lia.
Qed.

Lemma experience_match_range (job : JobDetails) :
  (3 # 10 <= _calculate_experience_match profile job <= 1)%Q.
Proof.
  unfold _calculate_experience_match.
  repeat match goal with |- context [if ?b then _ else _] => destruct b end;
    lra.
Qed.

Lemma location_match_range (job : JobDetails) :
  (1 # 2 <= _calculate_location_match profile job <= 1)%Q.
Proof.
  unfold _calculate_location_match.
  repeat match goal with |- context [if ?b then _ else _] => destruct b end;
    lra.
Qed.

(** The semantic score is the cosine similarity as the provider returns
    it: no clamp is applied. *)
Lemma semantic_similarity_unclamped (job_text : string) (s : Q) :
  up_embedding profile <> [] ->
  SKLEARN_AVAILABLE env = true -> NUMPY_AVAILABLE env = true ->
  cosine_similarity env (up_embedding profile)
    (generate_embedding env job_text) = Some s ->
  _calculate_semantic_similarity env profile job_text = s.
Proof.
  intros Hemb Hsk Hnp Hcos. unfold _calculate_semantic_similarity.
  destruct (up_embedding profile); [congruence|].
  rewrite Hsk, Hnp. simpl. rewrite Hcos. reflexivity.
Qed.

(** The cap at [1.0] holds for every input. *)
Lemma match_score_le_1 (job : JobDetails) :
  (_calculate_match_score settings env profile job <= 1)%Q.
Proof. unfold _calculate_match_score. apply py_min_le_r. Qed.

(** With a cosine similarity in [[-1, 1]] the score is at least [-0.19],
    and it is non-negative as soon as the semantic score is. *)
Lemma match_score_lower_bound (job : JobDetails) (s : Q) :
  (s <= _calculate_semantic_similarity env profile (_create_job_text job))%Q ->
  (s <= 1)%Q ->
  (s * (3 # 10) + (11 # 100)
     <= _calculate_match_score settings env profile job)%Q.
Proof.
  intros Hs Hs1. unfold _calculate_match_score, final_score.
  pose proof (skills_match_range job) as [Hk _].
  pose proof (experience_match_range job) as [He _].
  pose proof (location_match_range job) as [Hl _].
  pose proof (ai_match_score_range (_create_job_text job)) as [Ha _].
  apply py_min_ge; lra.
Qed.

Lemma match_score_nonneg (job : JobDetails) :
  (0 <= _calculate_semantic_similarity env profile (_create_job_text job))%Q ->
  (0 <= _calculate_match_score settings env profile job)%Q.
Proof.
  intros Hs. unfold _calculate_match_score, final_score.
  pose proof (skills_match_range job) as [Hk _].
  pose proof (experience_match_range job) as [He _].
  pose proof (location_match_range job) as [Hl _].
  pose proof (ai_match_score_range (_create_job_text job)) as [Ha _].
  apply py_min_ge; lra.
Qed.

End Scoring.

(** A posting that fits on every signal scores exactly one; the experience
    steps and the neutral location score are as tabulated. *)
Example perfect_match_scores_one :
  (_calculate_match_score settings_with_key env_agreeing profile_python
     (job_python "P1") == 1)%Q.
Proof. vm_compute. reflexivity. Qed.

Example sub_scores_of_job_rust :
  _calculate_semantic_similarity env_opposite profile_cobol
    (_create_job_text job_rust) = (-1)%Q
  /\ (_calculate_skills_match profile_cobol job_rust == 0)%Q
  /\ _calculate_experience_match profile_cobol job_rust = 0.3%Q
  /\ _calculate_location_match profile_cobol job_rust = 0.5%Q
  /\ (_calculate_ai_match_score settings_with_key env_opposite profile_cobol
        (_create_job_text job_rust) == 0)%Q.
Proof. vm_compute. repeat split; reflexivity. Qed.

(** C1. The overall match score is meant to lie in [[0, 1]], and the model
    of a posting refuses a [match_score] outside it; the engine only caps
    the weighted sum at [1.0].  For the candidate [profile_cobol] and the
    posting [job_rust], with a cosine similarity of [-1] and a judge
    answering [0.0], the score is [-0.19]: it is below zero and
    [validate_match_score] rejects it. *)
Theorem match_score_negative_at_opposite_embedding :
  (_calculate_match_score settings_with_key env_opposite profile_cobol job_rust
     == -19 # 100)%Q
  /\ (_calculate_match_score settings_with_key env_opposite profile_cobol job_rust
        < 0)%Q
  /\ validate_match_score
       (Some (_calculate_match_score settings_with_key env_opposite
                profile_cobol job_rust)) = false.
Proof.
  split; [|split]; vm_compute; reflexivity.
Qed.

(** ** Filtering and matching *)

(** A posting survives the filter exactly when it was discovered and no
    ledger entry, successful or not, carries its identifier. *)
Lemma filter_applied_jobs_spec (st : AutoApplyService) (jobs : list JobDetails)
    (job : JobDetails) :
  job ∈ _filter_applied_jobs st jobs
  <-> job ∈ jobs /\ ~ exists app, app ∈ application_history st /\ job_id app = jd_id job.
Proof.
  unfold _filter_applied_jobs. rewrite list_elem_of_filter.
  rewrite elem_of_list_to_set, list_elem_of_fmap.
  split.
  - intros [Hnone Hjob]. split; [exact Hjob|].
    intros (app & Hin & Heq). apply Hnone. exists app. by split.
  - intros [Hjob Hnone]. split; [|exact Hjob].
    intros (app & Heq & Hin). apply Hnone. exists app. by split.
Qed.

(** C5. Filtering the discovered postings against an unchanged ledger is
    idempotent: filtering the filtered list again returns the same list. *)
Theorem filter_applied_jobs_idempotent (st : AutoApplyService)
    (jobs : list JobDetails) :
  _filter_applied_jobs st (_filter_applied_jobs st jobs)
  = _filter_applied_jobs st jobs.
Proof.
  unfold _filter_applied_jobs.
  apply list_filter_filter_r. auto.
Qed.

(** The dedup scenario: X is in the ledger, a discovery of X and Y leaves
    Y only. *)
Example dedup_scenario :
  _filter_applied_jobs service_with_X [posting "X"; posting "Y"] = [posting "Y"].
Proof. reflexivity. Qed.

(** The filter keeps the order of discovery and never adds a posting. *)
Lemma filter_applied_jobs_sublist (st : AutoApplyService) (jobs : list JobDetails) :
  sublist (_filter_applied_jobs st jobs) jobs.
Proof. unfold _filter_applied_jobs. apply sublist_filter. Qed.

(** With an empty ledger nothing is dropped. *)
Lemma filter_applied_jobs_new_service (jobs : list JobDetails) :
  _filter_applied_jobs new_service jobs = jobs.
Proof.
  unfold _filter_applied_jobs. simpl.
  induction jobs as [|job jobs IH]; [done|].
  rewrite filter_cons. rewrite decide_True by set_solver. by rewrite IH.
Qed.

Lemma match_jobs_with_filter (settings : Settings) (score : JobDetails -> Q)
    (jobs : list JobDetails) :
  match_jobs_with settings score jobs
  = scored score
      <$> List.filter (fun job => Qle_bool (SIMILARITY_THRESHOLD settings) (score job))
            jobs.
Proof.
  induction jobs as [|job jobs IH]; [done|].
  cbn [match_jobs_with List.filter].
  destruct (Qle_bool _ _); rewrite ?fmap_cons, IH; done.
Qed.

Lemma float_or_0 (x : Q) : (float_or x 0 == x)%Q.
Proof.
  unfold float_or, float_truthy.
  destruct (Qeq_bool x 0) eqn:E; simpl; [|reflexivity].
  apply Qeq_bool_eq in E. by symmetry.
Qed.

Lemma float_or_nonzero (x d : Q) : ~ (x == 0)%Q -> float_or x d = x.
Proof.
  intros Hx. unfold float_or, float_truthy.
  destruct (Qeq_bool x 0) eqn:E; simpl; [|reflexivity].
  apply Qeq_bool_eq in E. contradiction.
Qed.

Lemma filter_fmap_comm {A B : Type} (f : A -> B) (p : B -> bool) (l : list A) :
  List.filter p (f <$> l) = f <$> List.filter (fun x => p (f x)) l.
Proof.
  induction l as [|x l IH]; [done|].
  rewrite fmap_cons. cbn [List.filter].
  destruct (p (f x)); rewrite ?fmap_cons, IH; done.
Qed.

Lemma filter_filter_andb {A : Type} (p q : A -> bool) (l : list A) :
  List.filter p (List.filter q l) = List.filter (fun x => p x && q x) l.
Proof.
  induction l as [|x l IH]; simpl; [done|].
  destruct (q x) eqn:Eq; simpl.
  - rewrite andb_true_r. destruct (p x); by rewrite IH.
  - by rewrite andb_false_r.
Qed.

Lemma filter_ext_bool {A : Type} (p q : A -> bool) (l : list A) :
  (forall x, p x = q x) -> List.filter p l = List.filter q l.
Proof.
  intros Hpq. induction l as [|x l IH]; simpl; [done|].
  rewrite Hpq. by rewrite IH.
Qed.

(** The list of suitable jobs in closed form, for a non-zero run
    threshold. *)
Lemma suitable_jobs_closed_form (settings : Settings) (score : JobDetails -> Q)
    (request : AutoApplyRequest) (new_jobs : list JobDetails) :
  ~ (min_match_score request == 0)%Q ->
  suitable_jobs settings score request new_jobs
  = scored score
      <$> List.filter
            (fun job =>
               Qle_bool (min_match_score request) (score job)
               && Qle_bool (SIMILARITY_THRESHOLD settings) (score job))
            new_jobs.
Proof.
  intros HT. unfold suitable_jobs.
  rewrite match_jobs_with_filter, filter_fmap_comm, filter_filter_andb.
  f_equal. apply filter_ext_bool. intros job. f_equal.
  rewrite (float_or_nonzero _ _ HT). simpl.
  apply Qleb_comp; [reflexivity | apply float_or_0].
Qed.

(** C2, as the engine has it. For any list of new postings and any non-zero
    run threshold [T], the jobs selected as matched (before ranking and the
    per-run cap) are exactly the postings whose score reaches both [T] and
    the matcher's own [SIMILARITY_THRESHOLD], each carrying its score; both
    comparisons include equality. *)
Theorem suitable_jobs_exactly (settings : Settings) (score : JobDetails -> Q)
    (request : AutoApplyRequest) (new_jobs : list JobDetails)
    (selected : JobDetails) :
  ~ (min_match_score request == 0)%Q ->
  selected ∈ suitable_jobs settings score request new_jobs
  <-> exists job,
        job ∈ new_jobs
        /\ selected = set_match_score job (score job)
        /\ (min_match_score request <= score job)%Q
        /\ (SIMILARITY_THRESHOLD settings <= score job)%Q.
Proof.
  intros HT. rewrite (suitable_jobs_closed_form _ _ _ _ HT).
  rewrite list_elem_of_fmap. unfold scored.
  split.
  - intros (job & -> & Hin). exists job.
    apply list_elem_of_In, filter_In in Hin as [Hin Hb].
    apply andb_true_iff in Hb as [H1 H2].
    repeat split; [by apply list_elem_of_In | by apply Qle_bool_iff..].
  - intros (job & Hin & -> & H1 & H2). exists job. split; [done|].
    apply list_elem_of_In, filter_In. split; [by apply list_elem_of_In|].
    apply andb_true_iff. split; by apply Qle_bool_iff.
Qed.

Lemma suitable_jobs_exactly_witness :
  ~ (min_match_score request_07 == 0)%Q
  /\ (set_match_score job_A (score_ABC job_A)
        ∈ suitable_jobs default_settings score_ABC request_07 [job_A; job_B; job_C]
      <-> exists job,
            job ∈ [job_A; job_B; job_C]
            /\ set_match_score job_A (score_ABC job_A)
               = set_match_score job (score_ABC job)
            /\ (min_match_score request_07 <= score_ABC job)%Q
            /\ (SIMILARITY_THRESHOLD default_settings <= score_ABC job)%Q).
Proof.
  assert (H : ~ (min_match_score request_07 == 0)%Q)
    by (vm_compute; discriminate).
  split; [exact H|].
  exact (suitable_jobs_exactly default_settings score_ABC request_07
           [job_A; job_B; job_C] (set_match_score job_A (score_ABC job_A)) H).
Defined.

(** C2, as stated, fails: posting C scores 0.75, which reaches the run
    threshold 0.7, and is not selected, because the matcher first drops
    what is below its own threshold 0.8. *)
Lemma matched_set_counterexample :
  (min_match_score request_07 <= score_ABC job_C)%Q
  /\ (set_match_score job_C (score_ABC job_C)
        ∉ suitable_jobs default_settings score_ABC request_07
            [job_A; job_B; job_C])
  /\ _search_suitable_jobs default_settings score_ABC request_07
       (Some [job_A; job_B; job_C]) new_service
     = [set_match_score job_A (score_ABC job_A)].
Proof.
  split; [vm_compute; discriminate|].
  split; [|reflexivity].
  change (suitable_jobs default_settings score_ABC request_07 [job_A; job_B; job_C])
    with [set_match_score job_A (score_ABC job_A)].
  rewrite list_elem_of_singleton. discriminate.
Qed.

(** ** The ranking step *)

Lemma insert_desc_perm (job : JobDetails) (sorted : list JobDetails) :
  insert_desc job sorted ≡ₚ job :: sorted.
Proof.
  induction sorted as [|other rest IH]; simpl; [done|].
  destruct (Qlt_bool _ _); [|done].
  rewrite IH. apply Permutation_swap.
Qed.

Lemma sort_by_score_desc_perm (jobs : list JobDetails) :
  sort_by_score_desc jobs ≡ₚ jobs.
Proof.
  unfold sort_by_score_desc.
  induction jobs as [|job jobs IH]; simpl; [done|].
  by rewrite insert_desc_perm, IH.
Qed.

(** The ranked list is ordered by descending key. *)
Lemma insert_desc_sorted (job : JobDetails) (sorted : list JobDetails) :
  StronglySorted (fun a b => (sort_key b <= sort_key a)%Q) sorted ->
  StronglySorted (fun a b => (sort_key b <= sort_key a)%Q) (insert_desc job sorted).
Proof.
  induction 1 as [|other rest Hsorted IH Hall]; simpl.
  - repeat constructor.
  - destruct (Qlt_bool (sort_key job) (sort_key other)) eqn:E.
    + apply Qlt_bool_iff in E. constructor; [exact IH|].
      rewrite insert_desc_perm. constructor; [lra | exact Hall].
    + apply Qlt_bool_false_iff in E. constructor.
      * by constructor.
      * constructor; [exact E|].
        eapply Forall_impl; [exact Hall|]. intros b Hb. simpl in Hb. lra.
Qed.

Lemma sort_by_score_desc_sorted (jobs : list JobDetails) :
  StronglySorted (fun a b => (sort_key b <= sort_key a)%Q)
    (sort_by_score_desc jobs).
Proof.
  unfold sort_by_score_desc.
  induction jobs as [|job jobs IH]; simpl; [constructor|].
  by apply insert_desc_sorted.
Qed.


Lemma py_slice_to_take {A : Type} (n : Z) (l : list A) :
  exists m : nat, py_slice_to n l = take m l.
Proof. unfold py_slice_to. destruct (Z.leb 0 n); eauto. Qed.

Lemma py_slice_to_nonneg {A : Type} (n : Z) (l : list A) :
  0 <= n -> py_slice_to n l = take (Z.to_nat n) l.
Proof.
  intros Hn. unfold py_slice_to.
  destruct (Z.leb_spec 0 n); [done | lia].
Qed.

(** Every job returned by [_search_suitable_jobs] is a suitable job of the
    postings that survive the ledger filter. *)
Lemma search_suitable_jobs_subset (settings : Settings) (score : JobDetails -> Q)
    (request : AutoApplyRequest) (found_jobs : list JobDetails)
    (st : AutoApplyService) (job : JobDetails) :
  job ∈ _search_suitable_jobs settings score request (Some found_jobs) st ->
  job ∈ suitable_jobs settings score request (_filter_applied_jobs st found_jobs).
Proof.
  unfold _search_suitable_jobs.
  destruct found_jobs as [|first others]; [by intros ?%elem_of_nil|].
  destruct (py_slice_to_take (int_or (max_applications_per_run request) 5)
              (sort_by_score_desc
                 (suitable_jobs settings score request
                    (_filter_applied_jobs st (first :: others)))))
    as [m ->].
  intros Hin%subseteq_take.
  by rewrite sort_by_score_desc_perm in Hin.
Qed.

(** The ranking scenario, with the matcher's threshold lowered to the run
    threshold: A (0.9), B (0.5) and C (0.75) give the order A, C. *)
Example ranking_scenario :
  _search_suitable_jobs (mkSettings 50 0.7%Q "") score_ABC request_07
    (Some [job_A; job_B; job_C]) new_service
  = [scored score_ABC job_A; scored score_ABC job_C].
Proof. reflexivity. Qed.

(** ** The daily counter *)

Lemma successful_count_app (h : list ApplicationRecord) (r : ApplicationRecord) :
  successful_count (h ++ [r])
  = successful_count h + (if success r then 1 else 0).
Proof.
  unfold successful_count. rewrite List.filter_app, length_app.
  cbn [List.filter]. destruct (success r); cbn [length]; lia.
Qed.

Lemma successful_count_alter (h : list ApplicationRecord) (i : nat) (t : Z)
    (app : ApplicationRecord) :
  h !! i = Some app -> success app = false ->
  successful_count (alter (mark_retried t) i h) = successful_count h + 1.
Proof.
  intros Hi Hfail. unfold successful_count.
  enough (length (List.filter success (alter (mark_retried t) i h))
          = S (length (List.filter success h))) as -> by lia.
  revert i Hi.
  induction h as [|r h IH]; intros i Hi; [done|].
  destruct i as [|i]; cbn [alter list_alter List.filter] in *.
  - injection Hi as ->. rewrite Hfail. done.
  - specialize (IH i Hi).
    destruct (success r); cbn [length]; by rewrite IH.
Qed.

Section Orchestrator.
Context (settings : Settings).

Abbreviation ceiling := (MAX_APPLICATIONS_PER_DAY settings).

Lemma apply_to_job_effect (st : AutoApplyService) (job : JobDetails)
    (request : AutoApplyRequest) (a : Attempt) :
  let (ok, st') := _apply_to_job st job request a in
  applications_today st' = applications_today st
  /\ is_running st' = is_running st
  /\ successful_count (application_history st')
     = successful_count (application_history st) + (if ok then 1 else 0).
Proof.
  unfold _apply_to_job.
  destruct (generate_cover_letter request);
    [destruct (cover_letter_reply a)|]; simpl;
    rewrite ?successful_count_app; simpl; repeat split; lia.
Qed.

Lemma apply_control_consistent (c : option bool) (st : AutoApplyService) :
  ledger_consistent settings st ->
  ledger_consistent settings (apply_control c st).
Proof. by destruct c. Qed.

(** An attempt is made only below the ceiling, so the counter stays at or
    below it. *)
Lemma apply_jobs_consistent (request : AutoApplyRequest)
    (jobs : list JobDetails) (world : nat -> Attempt) (k : nat)
    (st : AutoApplyService) :
  ledger_consistent settings st ->
  ledger_consistent settings (apply_jobs settings request jobs world k st).
Proof.
  revert k st. induction jobs as [|job rest IH]; intros k st Hst; [done|].
  simpl.
  destruct (negb (is_running st)); simpl; [done|].
  destruct (Z.leb_spec ceiling (applications_today st)) as [|Hlt]; [done|].
  pose proof (apply_to_job_effect st job request (world k)) as Heff.
  destruct (_apply_to_job st job request (world k)) as [ok st1].
  destruct Heff as (Htoday & _ & Hcount).
  destruct Hst as [Heq Hle].
  apply IH, apply_control_consistent.
  destruct ok; split; simpl; lia.
Qed.

Lemma cycle_body_consistent (score : JobDetails -> Q)
    (request : AutoApplyRequest) (c : CycleInput) (st : AutoApplyService) :
  ledger_consistent settings st ->
  ledger_consistent settings (cycle_body settings score request c st).
Proof.
  intros Hst. unfold cycle_body. apply apply_control_consistent.
  destruct (_search_suitable_jobs _ _ _ _ _); [done|].
  by apply apply_jobs_consistent.
Qed.

Lemma auto_apply_loop_consistent (score : JobDetails -> Q)
    (request : AutoApplyRequest) (cycles : list CycleInput)
    (st : AutoApplyService) :
  ledger_consistent settings st ->
  ledger_consistent settings (auto_apply_loop settings score request cycles st).
Proof.
  revert st. induction cycles as [|c rest IH]; intros st Hst; simpl;
    destruct (may_continue settings st); try done.
  by apply IH, cycle_body_consistent.
Qed.

Lemma start_consistent (env : Providers) (profile : option UserProfile)
    (request : AutoApplyRequest) (cycles : list CycleInput)
    (st : AutoApplyService) :
  ledger_consistent settings st ->
  ledger_consistent settings
    (start_auto_apply_process settings env profile request cycles st).
Proof.
  intros Hst. unfold start_auto_apply_process.
  destruct profile; [|done].
  by apply auto_apply_loop_consistent.
Qed.

(** The references built by [failed_applications]. *)
Lemma failed_from_spec (h : list ApplicationRecord) (i0 : nat) :
  Forall (fun ref : nat * ApplicationRecord =>
            (i0 <= ref.1)%nat
            /\ h !! (ref.1 - i0)%nat = Some ref.2
            /\ success ref.2 = false)
         (failed_from i0 h)
  /\ NoDup (failed_from i0 h).*1.
Proof.
  revert i0. induction h as [|app rest IH]; intros i0; simpl.
  - split; constructor.
  - destruct (IH (S i0)) as [Hall Hnd].
    assert (Hshift :
      Forall (fun ref : nat * ApplicationRecord =>
                (i0 <= ref.1)%nat
                /\ (app :: rest) !! (ref.1 - i0)%nat = Some ref.2
                /\ success ref.2 = false)
             (failed_from (S i0) rest)).
    { eapply Forall_impl; [exact Hall|].
      intros [i r] (Hle & Hlook & Hfail); simpl in *.
      split; [lia|]. split; [|done].
      replace (i - i0)%nat with (S (i - S i0)) by lia. done. }
    destruct (success app) eqn:Hs; simpl; [done|].
    split.
    + constructor; [|done]. simpl.
      rewrite Nat.sub_diag. done.
    + constructor; [|done].
      intros Hin. apply list_elem_of_fmap in Hin as ([i r] & Heq & Hin).
      simpl in Heq. subst i.
      rewrite Forall_forall in Hall. apply Hall in Hin. simpl in Hin. lia.
Qed.

Lemma failed_applications_ok (h : list ApplicationRecord) :
  selection_ok h (failed_applications h).
Proof.
  destruct (failed_from_spec h 0) as [Hall Hnd].
  split; [|done].
  eapply Forall_impl; [exact Hall|].
  intros [i r] (_ & Hlook & Hfail); simpl in *.
  exists r. simpl. by rewrite Nat.sub_0_r in Hlook.
Qed.

Lemma selection_ok_take (h : list ApplicationRecord) (m : nat)
    (sel : list (nat * ApplicationRecord)) :
  selection_ok h sel -> selection_ok h (take m sel).
Proof.
  intros [Hall Hnd]. split; [by apply Forall_take|].
  rewrite fmap_take. eapply sublist_NoDup; [done | apply sublist_take].
Qed.

Lemma retry_loop_consistent (sel : list (nat * ApplicationRecord))
    (world : nat -> Attempt) (k : nat) (counts : Z * Z)
    (st : AutoApplyService) :
  selection_ok (application_history st) sel ->
  ledger_consistent settings st ->
  ledger_consistent settings (retry_loop settings sel world k counts st).2.
Proof.
  revert k counts st.
  induction sel as [|[i app] rest IH]; intros k counts st Hsel Hst; [done|].
  simpl.
  destruct (Z.leb_spec ceiling (applications_today st)) as [|Hlt]; [done|].
  destruct (job_of_record app); [|done].
  destruct Hsel as [Hall Hnd].
  apply Forall_cons in Hall as [(r & Hr & Hfail) Hall].
  rewrite fmap_cons in Hnd. apply NoDup_cons in Hnd as [Hnotin Hnd].
  simpl in Hr, Hnotin.
  destruct Hst as [Heq Hle].
  destruct (bot_success (world k)).
  - apply IH.
    + assert (Hrest :
        selection_ok
          (alter (mark_retried (now (world k))) i (application_history st))
          rest).
      { split; [|done]. apply Forall_forall. intros [idx snap] Hin.
        rewrite Forall_forall in Hall.
        destruct (Hall _ Hin) as (cur & Hcur & Hcurfail). simpl in Hcur.
        exists cur. split; [|done]. simpl.
        rewrite list_lookup_alter_ne; [done|].
        intros ->. apply Hnotin. apply list_elem_of_fmap.
        by exists (idx, snap). }
      by destruct (control (world k)).
    + apply apply_control_consistent. split; simpl.
      * rewrite (successful_count_alter _ _ _ _ Hr Hfail). lia.
      * lia.
  - apply IH.
    + by destruct (control (world k)).
    + by apply apply_control_consistent.
Qed.

Lemma retry_consistent (max_retries : Z) (world : nat -> Attempt)
    (st : AutoApplyService) :
  ledger_consistent settings st ->
  ledger_consistent settings
    (retry_failed_applications settings max_retries world st).2.
Proof.
  intros Hst. unfold retry_failed_applications.
  pose proof (failed_applications_ok (application_history st)) as Hok.
  destruct (failed_applications (application_history st)) as [|ref refs] eqn:E;
    [done|].
  destruct (py_slice_to_take max_retries (ref :: refs)) as [m ->].
  pose proof (retry_loop_consistent (take m (ref :: refs)) world 0 (0, 0) st
                (selection_ok_take _ m _ Hok) Hst) as H.
  destruct (retry_loop _ _ _ _ _ _) as [[[retried successful]|] st']; exact H.
Qed.

Lemma new_service_consistent : ledger_consistent settings new_service.
Proof. split; simpl; [done | lia]. Qed.

(** At the ceiling both loops stop before any attempt: the state is left
    as it is. *)
Lemma apply_jobs_at_ceiling (request : AutoApplyRequest)
    (jobs : list JobDetails) (world : nat -> Attempt) (k : nat)
    (st : AutoApplyService) :
  ceiling <= applications_today st ->
  apply_jobs settings request jobs world k st = st.
Proof.
  intros Hfull. destruct jobs as [|job rest]; [done|]. simpl.
  destruct (Z.leb_spec ceiling (applications_today st)); [|lia].
  by rewrite orb_true_r.
Qed.

Lemma retry_loop_at_ceiling (sel : list (nat * ApplicationRecord))
    (world : nat -> Attempt) (k : nat) (counts : Z * Z)
    (st : AutoApplyService) :
  ceiling <= applications_today st ->
  retry_loop settings sel world k counts st = (Some counts, st).
Proof.
  intros Hfull. destruct sel as [|[i app] rest]; [done|]. simpl.
  by destruct (Z.leb_spec ceiling (applications_today st)); [|lia].
Qed.

Lemma run_operation_consistent (st : AutoApplyService) (op : Operation) :
  ledger_consistent settings st ->
  ledger_consistent settings (run_operation settings st op).
Proof.
  intros Hst.
  destruct op as [env profile request cycles | max_retries w | | |];
    simpl; try done.
  - by apply start_consistent.
  - by apply retry_consistent.
Qed.

Lemma run_operations_consistent (ops : list Operation) (st : AutoApplyService) :
  ledger_consistent settings st ->
  ledger_consistent settings (run_operations settings ops st).
Proof.
  unfold run_operations. revert st.
  induction ops as [|op ops IH]; intros st Hst; simpl; [done|].
  by apply IH, run_operation_consistent.
Qed.


End Orchestrator.


(** The ceiling scenario: with a ceiling of one and two matched postings,
    only the first is submitted; the second is not attempted and leaves no
    entry in the ledger. *)
Example ceiling_scenario :
  (job_id <$> application_history service_after_day_0) = ["P1"]
  /\ (success <$> application_history service_after_day_0) = [true]
  /\ applications_today service_after_day_0 = 1.
Proof. vm_compute. done. Qed.

(** ** The counter is never reset *)

Section Counter.
Context (settings : Settings).

Lemma apply_control_today (c : option bool) (st : AutoApplyService) :
  applications_today (apply_control c st) = applications_today st.
Proof. by destruct c. Qed.

Lemma apply_jobs_monotone (request : AutoApplyRequest)
    (jobs : list JobDetails) (world : nat -> Attempt) (k : nat)
    (st : AutoApplyService) :
  applications_today st
  <= applications_today (apply_jobs settings request jobs world k st).
Proof.
  revert k st. induction jobs as [|job rest IH]; intros k st; simpl; [lia|].
  destruct (negb (is_running st) || _); [lia|].
  pose proof (apply_to_job_effect st job request (world k)) as Heff.
  destruct (_apply_to_job st job request (world k)) as [ok st1].
  destruct Heff as (Htoday & _ & _).
  etrans; [|apply IH]. rewrite apply_control_today.
  destruct ok; simpl; lia.
Qed.

Lemma auto_apply_loop_monotone (score : JobDetails -> Q)
    (request : AutoApplyRequest) (cycles : list CycleInput)
    (st : AutoApplyService) :
  applications_today st
  <= applications_today (auto_apply_loop settings score request cycles st).
Proof.
  revert st. induction cycles as [|c rest IH]; intros st; simpl;
    destruct (may_continue settings st); simpl; try lia.
  etrans; [|apply IH]. unfold cycle_body. rewrite apply_control_today.
  destruct (_search_suitable_jobs _ _ _ _ _); [lia|].
  apply apply_jobs_monotone.
Qed.

Lemma retry_loop_monotone (sel : list (nat * ApplicationRecord))
    (world : nat -> Attempt) (k : nat) (counts : Z * Z)
    (st : AutoApplyService) :
  applications_today st
  <= applications_today (retry_loop settings sel world k counts st).2.
Proof.
  revert k counts st.
  induction sel as [|[i app] rest IH]; intros k counts st; simpl; [lia|].
  destruct (Z.leb _ _); simpl; [lia|].
  destruct (job_of_record app); simpl; [|lia].
  etrans; [|apply IH]. rewrite apply_control_today.
  destruct (bot_success (world k)); simpl; lia.
Qed.

Lemma run_operation_monotone (st : AutoApplyService) (op : Operation) :
  applications_today st <= applications_today (run_operation settings st op).
Proof.
  destruct op as [env profile request cycles | max_retries w | | |];
    simpl; try lia.
  - unfold start_auto_apply_process. destruct profile; simpl; [|lia].
    etrans; [|apply auto_apply_loop_monotone]. simpl. lia.
  - unfold retry_failed_applications.
    destruct (failed_applications _) as [|ref refs]; simpl; [lia|].
    pose proof (retry_loop_monotone (py_slice_to max_retries (ref :: refs))
                  w 0 (0, 0) st) as H.
    destruct (retry_loop _ _ _ _ _ _) as [[[retried successful]|] st'];
      exact H.
Qed.

(** C4, as the service has it. No date is stored with the daily counter
    and nothing resets it: it starts at zero when the service is built,
    and whatever operations run afterwards, at whatever instants, it
    never decreases. *)
Theorem applications_today_never_reset (ops : list Operation)
    (st : AutoApplyService) :
  applications_today new_service = 0
  /\ applications_today st
     <= applications_today (run_operations settings ops st).
Proof.
  split; [done|].
  unfold run_operations. revert st.
  induction ops as [|op ops IH]; intros st; simpl; [lia|].
  etrans; [apply (run_operation_monotone st op) | apply IH].
Qed.

End Counter.

(** C4, as stated, fails. After one successful application on day 0 the
    last stored instant is of day 0; on day 3 the counter still reads one,
    so with a ceiling of one the loop guard refuses and a start on day 3
    submits nothing. *)
Lemma counter_not_reset_counterexample :
  (date_of <$> last_application_time service_after_day_0) = Some 0
  /\ date_of instant_day_3 = 3
  /\ applications_today service_after_day_0 = 1
  /\ may_continue settings_ceiling_1 (set_is_running true service_after_day_0)
     = false
  /\ application_history
       (run_operations settings_ceiling_1 [start_on_day_3] service_after_day_0)
     = application_history service_after_day_0.
Proof. vm_compute. done. Qed.

(** ** The submission loop *)

Section SubmissionLoop.
Context {Page Element : Type} (ch : Channel Page Element).
Context (cover_letter custom_msg : option string).

(** A helper answers [True] only after it found an enabled element with
    one of its selectors and clicked it. *)
Lemma click_first_enabled_true (selectors : list string) (p p' : Page) :
  click_first_enabled ch selectors p = (true, p') ->
  exists selector button p_clicked,
    selector ∈ selectors
    /\ find_element ch (by_of selector) selector p = Found button
    /\ is_enabled ch button p = Some true
    /\ click ch button p = (true, p_clicked)
    /\ p' = wait ch p_clicked.
Proof.
  induction selectors as [|selector rest IH]; simpl; [discriminate|].
  destruct (find_element ch (by_of selector) selector p) as [button| |] eqn:Hfind;
    [|intros H; destruct (IH H) as (s & b & pc & Hin & Hrest);
      exists s, b, pc; split; [by right | done]
     |discriminate].
  destruct (is_enabled ch button p) as [[|]|] eqn:Hen; [| |discriminate].
  - destruct (click ch button p) as [returned pc] eqn:Hclick.
    destruct returned; [|discriminate].
    intros [= <-]. exists selector, button, pc.
    repeat split; [by left | done..].
  - intros H. destruct (IH H) as (s & b & pc & Hin & Hrest).
    exists s, b, pc. split; [by right | done].
Qed.

(** The first selector wins when it finds an enabled element whose click
    returns. *)
Lemma click_first_enabled_head (selector : string) (rest : list string)
    (p p_clicked : Page) (button : Element) :
  find_element ch (by_of selector) selector p = Found button ->
  is_enabled ch button p = Some true ->
  click ch button p = (true, p_clicked) ->
  click_first_enabled ch (selector :: rest) p = (true, wait ch p_clicked).
Proof. intros Hfind Hen Hclick. simpl. by rewrite Hfind, Hen, Hclick. Qed.

(** The loop by the number of passes left: it makes at most that many
    passes, its answer is read off the last pass, and a run whose passes
    all continue answers [False]. *)
Lemma application_loop_spec (steps_left : nat) (p : Page) :
  let '(result, trace, _) :=
    application_loop ch cover_letter custom_msg steps_left p in
  (length trace <= steps_left)%nat
  /\ result = ends_confirmed trace
  /\ (forallb continues trace && result) = false
  /\ forallb continues (removelast trace) = true.
Proof.
  revert p. induction steps_left as [|n IH]; intros p; simpl; [done|].
  destruct (application_step ch cover_letter custom_msg p) as [action p'].
  specialize (IH p').
  destruct (application_loop ch cover_letter custom_msg n p')
    as [[result trace] p_end].
  destruct IH as (Hlen & Hres & Hcont & Hinit).
  assert (Hgo :
    continues action = true ->
    (length (action :: trace) <= S n)%nat
    /\ result = ends_confirmed (action :: trace)
    /\ (forallb continues (action :: trace) && result) = false
    /\ forallb continues (removelast (action :: trace)) = true).
  { intros Ha. split; [simpl; lia|].
    destruct trace as [|a trace].
    - cbn in Hres. subst result. cbn.
      destruct action; try discriminate; done.
    - split; [|split].
      + rewrite Hres. unfold ends_confirmed.
        by rewrite last_cons_cons.
      + cbn [forallb]. by rewrite Ha.
      + change (removelast (action :: a :: trace))
          with (action :: removelast (a :: trace)).
        cbn [forallb]. by rewrite Ha. }
  destruct action; (try by apply Hgo); cbn; repeat split; lia.
Qed.

(** C6. Whatever the channel answers, [_handle_application_process]
    returns after at most five passes; it returns [True] (Confirmed)
    exactly when its last pass clicked Submit or saw the confirmation,
    and [False] (Failed) otherwise; in particular a run whose passes all
    continue, and so uses up the five passes, returns [False]. *)
Theorem application_process_bounded (p : Page) :
  let '(result, trace, _) :=
    _handle_application_process ch cover_letter custom_msg p in
  (length trace <= 5)%nat
  /\ result = ends_confirmed trace
  /\ (forallb continues trace && result) = false
  /\ forallb continues (removelast trace) = true.
Proof. apply (application_loop_spec max_steps p). Qed.


End SubmissionLoop.



(** The budget scenario: a channel that only ever offers Next makes the
    loop click it five times and answer [False]. *)
Example budget_exhausted_scenario :
  _handle_application_process channel_next_only None None 0%nat
  = (false, [NextClicked; NextClicked; NextClicked; NextClicked; NextClicked],
     5%nat).
Proof. reflexivity. Qed.

(** A confirmation already on the page ends the loop with [True] when no
    Submit button is found. *)
Example already_confirmed_scenario :
  _handle_application_process channel_already_confirmed None None 0%nat
  = (true, [AlreadySubmitted], 0%nat).
Proof. reflexivity. Qed.

(** ** Retry selection *)

Lemma failed_from_records (i0 : nat) (h : list ApplicationRecord) :
  (failed_from i0 h).*2 = List.filter (fun app => negb (success app)) h.
Proof.
  revert i0. induction h as [|app rest IH]; intros i0; [done|].
  cbn [failed_from List.filter].
  destruct (negb (success app)); rewrite ?fmap_cons, IH; done.
Qed.

Lemma failed_from_lookup (i0 : nat) (h : list ApplicationRecord) :
  Forall (fun ref : nat * ApplicationRecord =>
            (i0 <= ref.1)%nat /\ h !! (ref.1 - i0)%nat = Some ref.2)
         (failed_from i0 h).
Proof.
  eapply Forall_impl; [apply (failed_from_spec h i0)|].
  intros ref (? & ? & ?). done.
Qed.

(** C8, as the service has it. For every ledger and every non-negative
    limit, the entries selected for retry are exactly the entries with
    failed status, in ledger order (oldest first), cut to the first
    [limit] of them; each is selected together with its position in the
    ledger. *)
Theorem retry_selection_ledger_order (max_retries : Z)
    (history : list ApplicationRecord) :
  0 <= max_retries ->
  (retry_selection max_retries history).*2
  = take (Z.to_nat max_retries)
      (List.filter (fun app => negb (success app)) history)
  /\ Forall (fun ref : nat * ApplicationRecord => history !! ref.1 = Some ref.2)
       (retry_selection max_retries history).
Proof.
  intros Hlimit. unfold retry_selection, failed_applications.
  rewrite (py_slice_to_nonneg _ _ Hlimit). split.
  - by rewrite fmap_take, failed_from_records.
  - apply Forall_take.
    eapply Forall_impl; [apply (failed_from_lookup 0 history)|].
    intros ref [_ Hlook]. by rewrite Nat.sub_0_r in Hlook.
Qed.

Lemma retry_selection_ledger_order_witness :
  0 <= 1
  /\ ((retry_selection 1 ledger_two_failed).*2
      = take (Z.to_nat 1)
          (List.filter (fun app => negb (success app)) ledger_two_failed)
      /\ Forall (fun ref : nat * ApplicationRecord =>
                   ledger_two_failed !! ref.1 = Some ref.2)
           (retry_selection 1 ledger_two_failed)).
Proof.
  assert (H : 0 <= 1) by (vm_compute; discriminate).
  split; [exact H|].
  exact (retry_selection_ledger_order 1 ledger_two_failed H).
Defined.

(** C8, as stated, fails: with two failed entries, X recorded before Y,
    the selection lists X before Y, and a limit of one retries X: the
    oldest failed entry, not the most recent one. *)
Lemma retry_order_counterexample :
  ~ most_recent_first (retry_selection 5 ledger_two_failed).*2
  /\ (retry_selection 1 ledger_two_failed).*2 = [entry_X]
  /\ applied_at entry_X < applied_at entry_Y
  /\ success entry_Y = false.
Proof.
  split; [|by vm_compute].
  intros Hrecent.
  specialize (Hrecent 0%nat 1%nat entry_X entry_Y).
  assert (Hle : applied_at entry_Y <= applied_at entry_X).
  { apply Hrecent; [lia | reflexivity | reflexivity]. }
  vm_compute in Hle. by apply Hle.
Qed.

(** A negative limit is a Python slice: all failed entries but the last
    [-limit]. *)
Example retry_selection_negative_limit :
  (retry_selection (-1) ledger_two_failed).*2 = [entry_X].
Proof. reflexivity. Qed.

(** ** The application record *)

Lemma record_dict_dom (r : ApplicationRecord) :
  dom (record_dict r)
  = written_keys
    ∪ (match retried_at r with Some _ => {["retried_at"]} | None => ∅ end).
Proof.
  unfold record_dict, written_keys.
  destruct (retried_at r); rewrite !dom_insert_L, dom_empty_L; set_solver.
Qed.

Lemma record_dict_success (r : ApplicationRecord) :
  record_dict r !! "success" = Some (PyBool (success r)).
Proof. unfold record_dict. destruct (retried_at r); by simplify_map_eq. Qed.

(** No entry of the ledger has an error message among its keys. *)
Lemma record_dict_no_error_message (r : ApplicationRecord) :
  record_dict r !! "error_message" = None.
Proof. unfold record_dict. destruct (retried_at r); by simplify_map_eq. Qed.



(** ** Statistics *)

Lemma match_scores_truthy (history : list ApplicationRecord) :
  match_scores history
  = (fun app => default 0%Q (match_score app)) <$> truthy_scored_records history.
Proof.
  unfold match_scores, truthy_scored_records.
  induction history as [|app rest IH]; [done|].
  cbn [omap list_omap List.filter].
  destruct (match_score app) as [q|] eqn:Hscore; cbn [opt_float_truthy].
  - destruct (float_truthy q); [|exact IH].
    rewrite fmap_cons, Hscore, IH. done.
  - exact IH.
Qed.

Lemma avg_match_score_mean (history : list ApplicationRecord) :
  avg_match_score history = mean_of_truthy_scores history.
Proof.
  unfold avg_match_score, mean_of_truthy_scores.
  rewrite match_scores_truthy.
  destruct (truthy_scored_records history) as [|app rest]; [done|].
  rewrite fmap_cons. cbn [length]. by rewrite length_fmap.
Qed.

Lemma truthy_scored_records_idemp (history : list ApplicationRecord) :
  truthy_scored_records (truthy_scored_records history)
  = truthy_scored_records history.
Proof.
  unfold truthy_scored_records. rewrite filter_filter_andb.
  apply filter_ext_bool. intros app. by destruct (opt_float_truthy _).
Qed.

Lemma truthy_scored_records_none (history : list ApplicationRecord) :
  Forall (fun app => opt_float_truthy (match_score app) = false) history ->
  truthy_scored_records history = [].
Proof.
  unfold truthy_scored_records.
  induction 1 as [|app rest Happ _ IH]; [done|].
  cbn [List.filter]. by rewrite Happ.
Qed.

(** C10. The average reported by [get_application_stats] is the rounded
    mean of the scores of the records whose score is truthy: records with a
    score of 0.0 or [None] do not count, so dropping them from the ledger
    leaves the reported average unchanged, and a ledger that holds only
    such records reports 0, by the fallback for the empty list. *)
Theorem average_match_score_over_truthy (settings : Settings) (t : Z)
    (st : AutoApplyService) :
  let reported st := stat_average_match_score (get_application_stats settings t st) in
  reported st = py_round (mean_of_truthy_scores (application_history st)) 2
  /\ reported st
     = reported (set_history (truthy_scored_records (application_history st)) st)
  /\ (Forall (fun app => opt_float_truthy (match_score app) = false)
        (application_history st) ->
      match_scores (application_history st) = [] /\ reported st = 0%Q).
Proof.
  cbn. rewrite !avg_match_score_mean. split; [done|]. split.
  - unfold mean_of_truthy_scores. by rewrite truthy_scored_records_idemp.
  - intros Hall. rewrite match_scores_truthy.
    unfold mean_of_truthy_scores.
    by rewrite (truthy_scored_records_none _ Hall).
Qed.

Lemma average_match_score_over_truthy_witness :
  Forall (fun app => opt_float_truthy (match_score app) = false)
    ledger_zero_scores
  /\ stat_average_match_score
       (get_application_stats default_settings instant_day_3
          (set_history ledger_zero_scores new_service)) = 0%Q.
Proof.
  assert (H : Forall (fun app => opt_float_truthy (match_score app) = false)
                (application_history (set_history ledger_zero_scores new_service)))
    by (repeat constructor).
  split; [exact H|].
  exact (proj2 (proj2 (proj2 (average_match_score_over_truthy default_settings
                         instant_day_3 (set_history ledger_zero_scores new_service)))
                 H)).
Defined.

(** One non-zero score among zero and missing ones: the reported average is
    that score, not the mean over all three records. *)
Example average_of_mixed_scores :
  (stat_average_match_score
     (get_application_stats default_settings instant_day_3
        (set_history ledger_mixed_scores new_service)) == 0.8)%Q.
Proof. vm_compute. reflexivity. Qed.

(** ** The ledger only grows *)

Lemma evolves_refl (r : ApplicationRecord) : evolves r r.
Proof. by left. Qed.

Lemma evolves_trans (r1 r2 r3 : ApplicationRecord) :
  evolves r1 r2 -> evolves r2 r3 -> evolves r1 r3.
Proof.
  intros [->|[Hfail [t ->]]] H23; [done|].
  destruct H23 as [->|[Hfail' _]]; [right; eauto|].
  simpl in Hfail'. discriminate.
Qed.

Lemma ledger_extends_refl (h : list ApplicationRecord) : ledger_extends h h.
Proof.
  exists h, []. split; [by rewrite app_nil_r|].
  induction h; constructor; [apply evolves_refl | done].
Qed.

Lemma ledger_extends_trans (h1 h2 h3 : list ApplicationRecord) :
  ledger_extends h1 h2 -> ledger_extends h2 h3 -> ledger_extends h1 h3.
Proof.
  intros (kept & added & -> & H12) (kept' & added' & -> & H23).
  apply Forall2_app_inv_l in H23 as (k1 & k2 & Hk1 & Hk2 & ->).
  exists k1, (k2 ++ added'). split; [by rewrite app_assoc|].
  clear Hk2. revert k1 Hk1.
  induction H12 as [|r r' h kept Hr _ IH]; intros k1 Hk1.
  - by apply Forall2_nil_inv_l in Hk1 as ->.
  - apply Forall2_cons_inv_l in Hk1 as (r'' & k1' & Hr' & Hk1' & ->).
    constructor; [by eapply evolves_trans | by apply IH].
Qed.

Lemma ledger_extends_app (h : list ApplicationRecord) (r : ApplicationRecord) :
  ledger_extends h (h ++ [r]).
Proof.
  exists h, [r]. split; [done|].
  induction h; constructor; [apply evolves_refl | done].
Qed.

Lemma ledger_extends_alter (h : list ApplicationRecord) (i : nat) (t : Z)
    (r : ApplicationRecord) :
  h !! i = Some r -> success r = false ->
  ledger_extends h (alter (mark_retried t) i h).
Proof.
  intros Hi Hfail. exists (alter (mark_retried t) i h), [].
  split; [by rewrite app_nil_r|].
  revert i Hi. induction h as [|r0 h IH]; intros i Hi; [constructor|].
  destruct i as [|i]; cbn [alter list_alter].
  - injection Hi as ->. constructor.
    + right. eauto.
    + clear IH. induction h; constructor; [apply evolves_refl | done].
  - constructor; [apply evolves_refl | by apply IH].
Qed.

Section LedgerGrowth.
Context (settings : Settings).

Lemma apply_control_history (c : option bool) (st : AutoApplyService) :
  application_history (apply_control c st) = application_history st.
Proof. by destruct c. Qed.

Lemma apply_to_job_extends (st : AutoApplyService) (job : JobDetails)
    (request : AutoApplyRequest) (a : Attempt) :
  ledger_extends (application_history st)
    (application_history (_apply_to_job st job request a).2).
Proof.
  unfold _apply_to_job.
  destruct (generate_cover_letter request);
    [destruct (cover_letter_reply a)|]; simpl;
    auto using ledger_extends_refl, ledger_extends_app.
Qed.

Lemma apply_jobs_extends (request : AutoApplyRequest)
    (jobs : list JobDetails) (world : nat -> Attempt) (k : nat)
    (st : AutoApplyService) :
  ledger_extends (application_history st)
    (application_history (apply_jobs settings request jobs world k st)).
Proof.
  revert k st. induction jobs as [|job rest IH]; intros k st; simpl;
    [apply ledger_extends_refl|].
  destruct (negb (is_running st) || _); [apply ledger_extends_refl|].
  pose proof (apply_to_job_extends st job request (world k)) as Hext.
  destruct (_apply_to_job st job request (world k)) as [ok st1].
  eapply ledger_extends_trans; [exact Hext|].
  eapply ledger_extends_trans; [|apply IH].
  rewrite apply_control_history.
  destruct ok; apply ledger_extends_refl.
Qed.

Lemma auto_apply_loop_extends (score : JobDetails -> Q)
    (request : AutoApplyRequest) (cycles : list CycleInput)
    (st : AutoApplyService) :
  ledger_extends (application_history st)
    (application_history (auto_apply_loop settings score request cycles st)).
Proof.
  revert st. induction cycles as [|c rest IH]; intros st; simpl;
    destruct (may_continue settings st); simpl;
    try apply ledger_extends_refl.
  eapply ledger_extends_trans; [|apply IH].
  unfold cycle_body. rewrite apply_control_history.
  destruct (_search_suitable_jobs _ _ _ _ _); [apply ledger_extends_refl|].
  apply apply_jobs_extends.
Qed.

Lemma retry_loop_extends (sel : list (nat * ApplicationRecord))
    (world : nat -> Attempt) (k : nat) (counts : Z * Z)
    (st : AutoApplyService) :
  selection_ok (application_history st) sel ->
  ledger_extends (application_history st)
    (application_history (retry_loop settings sel world k counts st).2).
Proof.
  revert k counts st.
  induction sel as [|[i app] rest IH]; intros k counts st Hsel; simpl;
    [apply ledger_extends_refl|].
  destruct (Z.leb _ _); simpl; [apply ledger_extends_refl|].
  destruct (job_of_record app); simpl; [|apply ledger_extends_refl].
  destruct Hsel as [Hall Hnd].
  apply Forall_cons in Hall as [(r & Hr & Hfail) Hall].
  rewrite fmap_cons in Hnd. apply NoDup_cons in Hnd as [Hnotin Hnd].
  simpl in Hr, Hnotin.
  destruct (bot_success (world k)).
  - eapply ledger_extends_trans; [|apply IH].
    + rewrite apply_control_history. simpl.
      by eapply ledger_extends_alter.
    + rewrite apply_control_history. simpl.
      split; [|done]. apply Forall_forall. intros [idx snap] Hin.
      rewrite Forall_forall in Hall.
      destruct (Hall _ Hin) as (cur & Hcur & Hcurfail). simpl in Hcur.
      exists cur. split; [|done]. simpl.
      rewrite list_lookup_alter_ne; [done|].
      intros ->. apply Hnotin. apply list_elem_of_fmap.
      by exists (idx, snap).
  - rewrite <- (apply_control_history (control (world k)) st) at 1.
    apply IH. rewrite apply_control_history. by split.
Qed.

Lemma run_operation_extends (st : AutoApplyService) (op : Operation) :
  ledger_extends (application_history st)
    (application_history (run_operation settings st op)).
Proof.
  destruct op as [env profile request cycles | max_retries w | | |];
    simpl; try apply ledger_extends_refl.
  - unfold start_auto_apply_process.
    destruct profile; simpl; [|apply ledger_extends_refl].
    apply (auto_apply_loop_extends _ request cycles (set_is_running true st)).
  - unfold retry_failed_applications.
    pose proof (failed_applications_ok (application_history st)) as Hok.
    destruct (failed_applications (application_history st)) as [|ref refs];
      [apply ledger_extends_refl|].
    destruct (py_slice_to_take max_retries (ref :: refs)) as [m ->].
    pose proof (retry_loop_extends (take m (ref :: refs)) w 0 (0, 0) st
                  (selection_ok_take _ m _ Hok)) as H.
    destruct (retry_loop _ _ _ _ _ _) as [[[retried successful]|] st'];
      exact H.
Qed.

(** X1. The ledger is append-only. Whatever operations run on a service,
    every entry that was in the ledger is still at the same position with
    the same posting, instant, score and cover-letter flag; the only change
    an entry can undergo is the marking of a failed entry as retried with
    success; new entries come after the old ones. *)
Theorem ledger_is_append_only (ops : list Operation) (st : AutoApplyService) :
  ledger_extends (application_history st)
    (application_history (run_operations settings ops st)).
Proof.
  unfold run_operations. revert st.
  induction ops as [|op ops IH]; intros st; simpl;
    [apply ledger_extends_refl|].
  eapply ledger_extends_trans; [apply run_operation_extends | apply IH].
Qed.

End LedgerGrowth.

(** ** One ledger entry per posting *)

Lemma list_filter_sublist {A : Type} (p : A -> bool) (l : list A) :
  sublist (List.filter p l) l.
Proof.
  induction l as [|x l IH]; simpl; [constructor|].
  destruct (p x); by constructor.
Qed.

Lemma match_jobs_with_ids (settings : Settings) (score : JobDetails -> Q)
    (jobs : list JobDetails) :
  sublist (jd_id <$> match_jobs_with settings score jobs) (jd_id <$> jobs).
Proof.
  induction jobs as [|job jobs IH]; simpl; [constructor|].
  destruct (Qle_bool _ _); rewrite ?fmap_cons; simpl; by constructor.
Qed.

Lemma suitable_jobs_ids (settings : Settings) (score : JobDetails -> Q)
    (request : AutoApplyRequest) (new_jobs : list JobDetails) :
  sublist (jd_id <$> suitable_jobs settings score request new_jobs)
    (jd_id <$> new_jobs).
Proof.
  unfold suitable_jobs.
  etrans; [|apply match_jobs_with_ids].
  apply fmap_sublist, list_filter_sublist.
Qed.

(** The postings returned by a search have pairwise distinct identifiers
    when the discovery has, and none of them is in the ledger. *)
Lemma search_suitable_jobs_ids (settings : Settings) (score : JobDetails -> Q)
    (request : AutoApplyRequest) (found_jobs : list JobDetails)
    (st : AutoApplyService) :
  NoDup (jd_id <$> found_jobs) ->
  NoDup (jd_id <$> _search_suitable_jobs settings score request
                     (Some found_jobs) st).
Proof.
  intros Hnd. unfold _search_suitable_jobs.
  destruct found_jobs as [|first others]; [constructor|].
  destruct (py_slice_to_take (int_or (max_applications_per_run request) 5)
              (sort_by_score_desc
                 (suitable_jobs settings score request
                    (_filter_applied_jobs st (first :: others)))))
    as [m ->].
  eapply sublist_NoDup; [|apply fmap_sublist, sublist_take].
  rewrite sort_by_score_desc_perm.
  eapply sublist_NoDup; [|apply suitable_jobs_ids].
  eapply sublist_NoDup; [exact Hnd|].
  apply fmap_sublist, filter_applied_jobs_sublist.
Qed.

Lemma search_suitable_jobs_fresh (settings : Settings) (score : JobDetails -> Q)
    (request : AutoApplyRequest) (all_jobs : option (list JobDetails))
    (st : AutoApplyService) (job : JobDetails) :
  job ∈ _search_suitable_jobs settings score request all_jobs st ->
  jd_id job ∉ ledger_ids st.
Proof.
  destruct all_jobs as [found_jobs|]; [|by intros ?%elem_of_nil].
  intros Hin%search_suitable_jobs_subset.
  assert (Hid : jd_id job ∈ jd_id <$> _filter_applied_jobs st found_jobs).
  { eapply elem_of_sublist; [|apply suitable_jobs_ids].
    apply list_elem_of_fmap. by exists job. }
  apply list_elem_of_fmap in Hid as (job' & Heq & Hin').
  apply filter_applied_jobs_spec in Hin' as [_ Hnone].
  unfold ledger_ids. rewrite list_elem_of_fmap.
  intros (app & Happ & Hmem). apply Hnone. exists app.
  split; [done | congruence].
Qed.

Lemma apply_to_job_ids (st : AutoApplyService) (job : JobDetails)
    (request : AutoApplyRequest) (a : Attempt) :
  ledger_ids (_apply_to_job st job request a).2 = ledger_ids st
  \/ ledger_ids (_apply_to_job st job request a).2 = ledger_ids st ++ [jd_id job].
Proof.
  unfold _apply_to_job, ledger_ids.
  destruct (generate_cover_letter request);
    [destruct (cover_letter_reply a); [|by left]|];
    right; simpl; by rewrite fmap_app.
Qed.

Lemma fmap_job_id_alter (h : list ApplicationRecord) (i : nat) (t : Z) :
  job_id <$> alter (mark_retried t) i h = job_id <$> h.
Proof.
  revert i. induction h as [|r h IH]; intros i; [done|].
  destruct i as [|i]; cbn [alter list_alter]; rewrite !fmap_cons;
    [done | by rewrite IH].
Qed.

Section Dedup.
Context (settings : Settings).

Lemma apply_control_ids (c : option bool) (st : AutoApplyService) :
  ledger_ids (apply_control c st) = ledger_ids st.
Proof. by destruct c. Qed.

Lemma apply_jobs_nodup (request : AutoApplyRequest)
    (jobs : list JobDetails) (world : nat -> Attempt) (k : nat)
    (st : AutoApplyService) :
  NoDup (ledger_ids st) ->
  NoDup (jd_id <$> jobs) ->
  Forall (fun job => jd_id job ∉ ledger_ids st) jobs ->
  NoDup (ledger_ids (apply_jobs settings request jobs world k st)).
Proof.
  revert k st. induction jobs as [|job rest IH];
    intros k st Hst Hjobs Hfresh; simpl; [done|].
  destruct (negb (is_running st) || _); [done|].
  rewrite fmap_cons in Hjobs. apply NoDup_cons in Hjobs as [Hjob Hrest].
  apply Forall_cons in Hfresh as [Hnew Hfresh].
  pose proof (apply_to_job_ids st job request (world k)) as Hids.
  destruct (_apply_to_job st job request (world k)) as [ok st1].
  simpl in Hids.
  assert (Hsame : forall st', ledger_ids (apply_control (control (world k))
                    (if ok then incr_applications_today st' else st'))
                  = ledger_ids st')
    by (intros st'; rewrite apply_control_ids; by destruct ok).
  apply IH; rewrite ?Hsame; [| done |].
  - destruct Hids as [-> | ->]; [done|].
    apply NoDup_app. split; [done|]. split; [|apply NoDup_singleton].
    intros x Hx ->%list_elem_of_singleton. done.
  - apply Forall_forall. intros other Hother.
    rewrite Forall_forall in Hfresh.
    destruct Hids as [-> | ->]; [by apply Hfresh|].
    rewrite elem_of_app, list_elem_of_singleton.
    intros [Hin | Heq]; [by apply (Hfresh other)|].
    apply Hjob. rewrite <- Heq. apply list_elem_of_fmap. by exists other.
Qed.

Lemma cycle_body_nodup (score : JobDetails -> Q) (request : AutoApplyRequest)
    (c : CycleInput) (st : AutoApplyService) :
  NoDup (ledger_ids st) ->
  match found c with
  | Some jobs => NoDup (jd_id <$> jobs)
  | None => True
  end ->
  NoDup (ledger_ids (cycle_body settings score request c st)).
Proof.
  intros Hst Hfound. unfold cycle_body. rewrite apply_control_ids.
  destruct (_search_suitable_jobs settings score request (found c) st)
    as [|job jobs] eqn:Hsearch; [done|].
  apply apply_jobs_nodup; [done| |].
  - rewrite <- Hsearch. destruct (found c) as [found_jobs|]; [|constructor].
    by apply search_suitable_jobs_ids.
  - apply Forall_forall. intros other Hother.
    eapply search_suitable_jobs_fresh. by rewrite Hsearch.
Qed.

Lemma auto_apply_loop_nodup (score : JobDetails -> Q)
    (request : AutoApplyRequest) (cycles : list CycleInput)
    (st : AutoApplyService) :
  NoDup (ledger_ids st) ->
  Forall (fun c => match found c with
                   | Some jobs => NoDup (jd_id <$> jobs)
                   | None => True
                   end) cycles ->
  NoDup (ledger_ids (auto_apply_loop settings score request cycles st)).
Proof.
  revert st. induction cycles as [|c rest IH]; intros st Hst Hcycles; simpl;
    destruct (may_continue settings st); try done.
  apply Forall_cons in Hcycles as [Hc Hrest].
  apply IH; [|done]. by apply cycle_body_nodup.
Qed.

Lemma retry_loop_ids (sel : list (nat * ApplicationRecord))
    (world : nat -> Attempt) (k : nat) (counts : Z * Z)
    (st : AutoApplyService) :
  ledger_ids (retry_loop settings sel world k counts st).2 = ledger_ids st.
Proof.
  revert k counts st.
  induction sel as [|[i app] rest IH]; intros k counts st; simpl; [done|].
  destruct (Z.leb _ _); simpl; [done|].
  destruct (job_of_record app); simpl; [|done].
  rewrite IH, apply_control_ids.
  destruct (bot_success (world k)); [|done].
  unfold ledger_ids. simpl. apply fmap_job_id_alter.
Qed.

Lemma run_operation_nodup (st : AutoApplyService) (op : Operation) :
  NoDup (ledger_ids st) -> distinct_discoveries op ->
  NoDup (ledger_ids (run_operation settings st op)).
Proof.
  intros Hst Hop.
  destruct op as [env profile request cycles | max_retries w | | |];
    simpl; try done.
  - unfold start_auto_apply_process. destruct profile; [|done].
    by apply auto_apply_loop_nodup.
  - unfold retry_failed_applications.
    destruct (failed_applications _) as [|ref refs]; [done|].
    pose proof (retry_loop_ids (py_slice_to max_retries (ref :: refs))
                  w 0 (0, 0) st) as H.
    destruct (retry_loop _ _ _ _ _ _) as [[[retried successful]|] st'];
      simpl in *; by rewrite H.
Qed.


End Dedup.


(** The hypothesis on discoveries is needed: a discovery that lists the
    same posting twice leads to two entries for it. *)
Example duplicate_discovery_scenario :
  ledger_ids
    (run_operations default_settings
       [OpStart env_agreeing (Some profile_python) request_07
          [mkCycle (Some [job_python "P1"; job_python "P1"])
             (world_succeeding instant_day_0) None]]
       new_service)
  = ["P1"; "P1"].
Proof. vm_compute. reflexivity. Qed.

(** ** Retry accounting *)

Section RetryAccounting.
Context (settings : Settings).

Lemma apply_control_length (c : option bool) (st : AutoApplyService) :
  length (application_history (apply_control c st))
  = length (application_history st).
Proof. by destruct c. Qed.

Lemma retry_loop_accounting (sel : list (nat * ApplicationRecord))
    (world : nat -> Attempt) (k : nat) (counts : Z * Z)
    (st : AutoApplyService) :
  let (res, st') := retry_loop settings sel world k counts st in
  length (application_history st') = length (application_history st)
  /\ match res with
     | Some (retried, successful) =>
         fst counts <= retried <= fst counts + Z.of_nat (length sel)
         /\ snd counts <= successful
         /\ successful - snd counts <= retried - fst counts
         /\ applications_today st'
            = applications_today st + (successful - snd counts)
     | None => True
     end.
Proof.
  revert k counts st.
  induction sel as [|[i app] rest IH]; intros k [r0 s0] st; simpl.
  - split; [done|]. lia.
  - destruct (Z.leb _ _); simpl; [split; [done|]; lia|].
    destruct (job_of_record app); simpl; [|done].
    match goal with
    | |- context [retry_loop settings rest world (S k) ?c ?s] =>
        specialize (IH (S k) c s);
        destruct (retry_loop settings rest world (S k) c s) as [res st']
    end.
    destruct IH as [Hlen Hres].
    rewrite apply_control_length in Hlen.
    split.
    + rewrite Hlen. destruct (bot_success (world k)); [|done].
      simpl. by rewrite length_alter.
    + destruct res as [[retried successful]|]; [|done].
      simpl in Hres. destruct Hres as (H1 & H2 & H3 & H4).
      rewrite apply_control_today in H4.
      destruct (bot_success (world k)); simpl in *; lia.
Qed.

Lemma py_slice_to_length_nonneg {A : Type} (n : Z) (l : list A) :
  0 <= n -> Z.of_nat (length (py_slice_to n l)) <= n.
Proof.
  intros Hn. rewrite (py_slice_to_nonneg _ _ Hn), length_take. lia.
Qed.


End RetryAccounting.

(** ** The scores stored in the ledger *)

Lemma effective_threshold_positive (request : AutoApplyRequest) :
  validate_min_match_score (min_match_score request) = true ->
  (0 < float_or (min_match_score request) 0.7)%Q.
Proof.
  unfold validate_min_match_score, float_or, float_truthy.
  intros Hvalid. apply negb_true_iff, orb_false_iff in Hvalid as [Hlow _].
  apply Qlt_bool_false_iff in Hlow.
  destruct (Qeq_bool (min_match_score request) 0) eqn:E; simpl; [reflexivity|].
  apply Qeq_bool_neq in E.
  destruct (Qlt_le_dec 0 (min_match_score request)) as [|Hle]; [done|].
  exfalso. apply E. by apply Qle_antisym.
Qed.

(** Every suitable job carries its score, which reaches the effective run
    threshold and the matcher's threshold. *)
Lemma suitable_jobs_scores (settings : Settings) (score : JobDetails -> Q)
    (request : AutoApplyRequest) (new_jobs : list JobDetails)
    (job : JobDetails) :
  job ∈ suitable_jobs settings score request new_jobs ->
  exists q,
    jd_match_score job = Some q
    /\ (float_or (min_match_score request) 0.7 <= q)%Q
    /\ (SIMILARITY_THRESHOLD settings <= q)%Q
    /\ exists posting, posting ∈ new_jobs /\ job = scored score posting.
Proof.
  unfold suitable_jobs. rewrite match_jobs_with_filter.
  intros Hin%list_elem_of_In%filter_In. destruct Hin as [Hin Hmin].
  apply list_elem_of_In, list_elem_of_fmap in Hin as (posting & -> & Hin).
  apply list_elem_of_In, filter_In in Hin as [Hin Hthr].
  exists (score posting). simpl in *.
  split; [done|]. split; [|split].
  - apply Qle_bool_iff in Hmin. by rewrite float_or_0 in Hmin.
  - by apply Qle_bool_iff.
  - exists posting. split; [by apply list_elem_of_In | done].
Qed.

Lemma search_suitable_jobs_scores (settings : Settings) (score : JobDetails -> Q)
    (request : AutoApplyRequest) (all_jobs : option (list JobDetails))
    (st : AutoApplyService) (job : JobDetails) :
  job ∈ _search_suitable_jobs settings score request all_jobs st ->
  exists q,
    jd_match_score job = Some q
    /\ (float_or (min_match_score request) 0.7 <= q)%Q
    /\ (SIMILARITY_THRESHOLD settings <= q)%Q
    /\ exists posting, job = scored score posting.
Proof.
  destruct all_jobs as [found_jobs|]; [|by intros ?%elem_of_nil].
  intros Hin%search_suitable_jobs_subset.
  apply suitable_jobs_scores in Hin as (q & Hq & Hmin & Hthr & posting & _ & ->).
  exists q. eauto.
Qed.

Section StoredScores.
Context (settings : Settings).

Lemma apply_control_scores (c : option bool) (st : AutoApplyService) :
  Forall score_in_range (application_history (apply_control c st))
  <-> Forall score_in_range (application_history st).
Proof. by destruct c. Qed.

Lemma apply_to_job_scores (st : AutoApplyService) (job : JobDetails)
    (request : AutoApplyRequest) (a : Attempt) :
  Forall score_in_range (application_history st) ->
  job_score_in_range job ->
  Forall score_in_range (application_history (_apply_to_job st job request a).2).
Proof.
  intros Hst Hjob. unfold _apply_to_job.
  destruct (generate_cover_letter request);
    [destruct (cover_letter_reply a); [|done]|]; simpl;
    (apply Forall_app; split; [done|]);
    (constructor; [exact Hjob | constructor]).
Qed.

Lemma apply_jobs_scores (request : AutoApplyRequest)
    (jobs : list JobDetails) (world : nat -> Attempt) (k : nat)
    (st : AutoApplyService) :
  Forall score_in_range (application_history st) ->
  Forall job_score_in_range jobs ->
  Forall score_in_range
    (application_history (apply_jobs settings request jobs world k st)).
Proof.
  revert k st. induction jobs as [|job rest IH]; intros k st Hst Hjobs;
    simpl; [done|].
  destruct (negb (is_running st) || _); [done|].
  apply Forall_cons in Hjobs as [Hjob Hrest].
  pose proof (apply_to_job_scores st job request (world k) Hst Hjob) as Hnext.
  destruct (_apply_to_job st job request (world k)) as [ok st1].
  apply IH; [|done]. apply apply_control_scores. by destruct ok.
Qed.

Lemma retry_loop_scores (sel : list (nat * ApplicationRecord))
    (world : nat -> Attempt) (k : nat) (counts : Z * Z)
    (st : AutoApplyService) :
  Forall score_in_range (application_history st) ->
  Forall score_in_range
    (application_history (retry_loop settings sel world k counts st).2).
Proof.
  revert k counts st.
  induction sel as [|[i app] rest IH]; intros k counts st Hst; simpl; [done|].
  destruct (Z.leb _ _); simpl; [done|].
  destruct (job_of_record app); simpl; [|done].
  apply IH, apply_control_scores.
  destruct (bot_success (world k)); [|done]. simpl.
  apply Forall_alter; [done|]. intros r _ Hr. exact Hr.
Qed.

Lemma retry_loop_no_error (sel : list (nat * ApplicationRecord))
    (world : nat -> Attempt) (k : nat) (counts : Z * Z)
    (st : AutoApplyService) :
  Forall (fun ref : nat * ApplicationRecord => score_in_range ref.2) sel ->
  (retry_loop settings sel world k counts st).1 <> None.
Proof.
  revert k counts st.
  induction sel as [|[i app] rest IH]; intros k counts st Hsel; simpl; [done|].
  destruct (Z.leb _ _); simpl; [done|].
  apply Forall_cons in Hsel as [(q & Hq & Hpos & Hle) Hrest]. simpl in Hq.
  unfold job_of_record, validate_match_score. rewrite Hq.
  assert (Hlow : Qlt_bool q 0 = false) by (apply Qlt_bool_false_iff; lra).
  assert (Hhigh : Qlt_bool 1 q = false) by (by apply Qlt_bool_false_iff).
  rewrite Hlow, Hhigh. simpl. by apply IH.
Qed.

Lemma failed_applications_from_ledger (h : list ApplicationRecord) :
  Forall (fun ref : nat * ApplicationRecord => ref.2 ∈ h)
    (failed_applications h).
Proof.
  eapply Forall_impl; [apply (failed_from_lookup 0 h)|].
  intros ref [_ Hlook]. by eapply list_elem_of_lookup_2.
Qed.

Lemma run_operation_scores (st : AutoApplyService) (op : Operation) :
  Forall score_in_range (application_history st) -> valid_start op ->
  Forall score_in_range (application_history (run_operation settings st op)).
Proof.
  intros Hst Hop.
  destruct op as [env profile request cycles | max_retries w | | |];
    simpl; try done.
  - unfold start_auto_apply_process. destruct profile as [loaded|]; [|done].
    simpl in Hop. apply andb_true_iff in Hop as [_ Hmin].
    assert (Hloop : forall cs s,
      Forall score_in_range (application_history s) ->
      Forall score_in_range
        (application_history
           (auto_apply_loop settings
              (_calculate_match_score settings env loaded) request cs s))).
    { induction cs as [|c rest IH]; intros s Hs; simpl;
        destruct (may_continue settings s); try done.
      apply IH. unfold cycle_body. apply apply_control_scores.
      destruct (_search_suitable_jobs _ _ _ _ _) as [|job jobs] eqn:Hsearch;
        [done|].
      apply apply_jobs_scores; [done|].
      apply Forall_forall. intros other Hother.
      rewrite <- Hsearch in Hother.
      apply search_suitable_jobs_scores in Hother
        as (q & Hq & Hmin' & _ & posting & ->).
      exists q. split; [done|]. simpl in Hq. injection Hq as <-.
      pose proof (effective_threshold_positive request Hmin).
      pose proof (match_score_le_1 settings env loaded posting).
      split; lra. }
    by apply Hloop.
  - unfold retry_failed_applications.
    destruct (failed_applications _) as [|ref refs]; [done|].
    pose proof (retry_loop_scores (py_slice_to max_retries (ref :: refs))
                  w 0 (0, 0) st Hst) as H.
    destruct (retry_loop _ _ _ _ _ _) as [[[retried successful]|] st'];
      exact H.
Qed.

Lemma run_operations_scores (ops : list Operation) (st : AutoApplyService) :
  Forall score_in_range (application_history st) ->
  Forall valid_start ops ->
  Forall score_in_range (application_history (run_operations settings ops st)).
Proof.
  unfold run_operations. revert st.
  induction ops as [|op ops IH]; intros st Hst Hops; simpl; [done|].
  apply Forall_cons in Hops as [Hop Hops].
  apply IH; [|done]. by apply run_operation_scores.
Qed.

(** X4. Every entry the service writes for a validated request stores a
    match score in the interval (0, 1]: after any operations on a fresh
    service whose starts carry valid requests, no ledger entry has a
    missing, zero, negative or above-one score. *)
Theorem ledger_scores_in_range (ops : list Operation) :
  Forall valid_start ops ->
  Forall score_in_range
    (application_history (run_operations settings ops new_service)).
Proof. intros Hops. apply run_operations_scores; [constructor | done]. Qed.

(** X5. On such a ledger a retry never ends in its error case: the
    validator of [JobDetails] accepts every stored score, so the loop is
    never left by an exception. *)
Theorem retry_never_errors (ops : list Operation) (max_retries : Z)
    (world : nat -> Attempt) :
  Forall valid_start ops ->
  (retry_failed_applications settings max_retries world
     (run_operations settings ops new_service)).1 <> RetryError.
Proof.
  intros Hops.
  pose proof (run_operations_scores ops new_service (Forall_nil_2 _) Hops) as Hst.
  unfold retry_failed_applications.
  pose proof (failed_applications_from_ledger
                (application_history (run_operations settings ops new_service)))
    as Hfrom.
  destruct (failed_applications _) as [|ref refs]; [done|].
  destruct (py_slice_to_take max_retries (ref :: refs)) as [m ->].
  assert (Hsel : Forall (fun r : nat * ApplicationRecord => score_in_range r.2)
                   (take m (ref :: refs))).
  { apply Forall_take. eapply Forall_impl; [exact Hfrom|].
    intros r Hr. rewrite Forall_forall in Hst. by apply Hst. }
  pose proof (retry_loop_no_error (take m (ref :: refs)) world 0 (0, 0)
                (run_operations settings ops new_service) Hsel) as Hne.
  destruct (retry_loop _ _ _ _ _ _) as [[[retried successful]|] st'];
    simpl in *; done.
Qed.

End StoredScores.

Lemma ledger_scores_in_range_witness :
  Forall valid_start [start_failing_on_day_0; start_on_day_3]
  /\ Forall score_in_range
       (application_history
          (run_operations default_settings
             [start_failing_on_day_0; start_on_day_3] new_service)).
Proof.
  assert (H : Forall valid_start [start_failing_on_day_0; start_on_day_3])
    by (repeat constructor).
  split; [exact H|].
  exact (ledger_scores_in_range default_settings
           [start_failing_on_day_0; start_on_day_3] H).
Defined.

Lemma retry_never_errors_witness :
  Forall valid_start [start_failing_on_day_0]
  /\ (retry_failed_applications default_settings 5
        (world_succeeding instant_day_3)
        (run_operations default_settings [start_failing_on_day_0] new_service)).1
     <> RetryError.
Proof.
  assert (H : Forall valid_start [start_failing_on_day_0])
    by (repeat constructor).
  split; [exact H|].
  exact (retry_never_errors default_settings [start_failing_on_day_0] 5
           (world_succeeding instant_day_3) H).
Defined.

(** The retry scenario: two failed entries are retried with success; both
    are flipped and marked, and the counter reaches two. *)
Example retry_scenario :
  let st := run_operations default_settings [start_failing_on_day_0] new_service in
  let (res, st') :=
    retry_failed_applications default_settings 5
      (world_succeeding instant_day_3) st in
  (success <$> application_history st) = [false; false]
  /\ res = Retried 2 2
  /\ (success <$> application_history st') = [true; true]
  /\ (retried_at <$> application_history st')
     = [Some instant_day_3; Some instant_day_3]
  /\ applications_today st' = 2.
Proof. vm_compute. done. Qed.

(** ** What a search returns *)

Lemma StronglySorted_sublist {A : Type} (R : A -> A -> Prop) (k l : list A) :
  sublist k l -> StronglySorted R l -> StronglySorted R k.
Proof.
  induction 1 as [|x l1 l2 Hsub IH|x l1 l2 Hsub IH]; intros Hs; [constructor| |].
  - apply StronglySorted_inv in Hs as [Hs Hall]. constructor; [by apply IH|].
    apply Forall_forall. intros y Hy. rewrite Forall_forall in Hall.
    apply Hall. by eapply elem_of_sublist.
  - apply StronglySorted_inv in Hs as [Hs _]. by apply IH.
Qed.

Lemma StronglySorted_lookup {A : Type} (R : A -> A -> Prop) (l : list A)
    (i j : nat) (a b : A) :
  StronglySorted R l -> (i < j)%nat ->
  l !! i = Some a -> l !! j = Some b -> R a b.
Proof.
  intros Hs. revert i j. induction Hs as [|x l Hs IH Hall]; intros i j Hij Hi Hj.
  - by rewrite lookup_nil in Hi.
  - destruct j as [|j]; [lia|]. simpl in Hj.
    destruct i as [|i]; simpl in Hi.
    + injection Hi as ->. rewrite Forall_forall in Hall.
      apply Hall. by eapply list_elem_of_lookup_2.
    + apply (IH i j); [lia | done | done].
Qed.

Lemma valid_request_cap (request : AutoApplyRequest) :
  valid_request request = true ->
  1 <= max_applications_per_run request <= 20
  /\ int_or (max_applications_per_run request) 5
     = max_applications_per_run request.
Proof.
  unfold valid_request, validate_max_applications, int_or.
  intros [Hcap _]%andb_true_iff.
  apply negb_true_iff, orb_false_iff in Hcap as [Hlow Hhigh].
  apply Z.ltb_ge in Hlow, Hhigh.
  destruct (Z.eqb_spec (max_applications_per_run request) 0); lia.
Qed.

(** X6. For a validated request a search returns at most
    [max_applications_per_run] postings (hence at most 20), ranked by
    non-increasing score. *)
Theorem search_suitable_jobs_capped_and_ranked (settings : Settings)
    (score : JobDetails -> Q) (request : AutoApplyRequest)
    (all_jobs : option (list JobDetails)) (st : AutoApplyService) :
  valid_request request = true ->
  let result := _search_suitable_jobs settings score request all_jobs st in
  Z.of_nat (length result) <= max_applications_per_run request
  /\ max_applications_per_run request <= 20
  /\ StronglySorted (fun a b => (sort_key b <= sort_key a)%Q) result.
Proof.
  intros Hvalid result.
  destruct (valid_request_cap request Hvalid) as [[Hlow Hhigh] Hcap].
  subst result. unfold _search_suitable_jobs. rewrite Hcap.
  destruct all_jobs as [[|first others]|];
    try (simpl; repeat split; [lia | lia | constructor]).
  rewrite py_slice_to_nonneg by lia.
  split; [rewrite length_take; lia|]. split; [done|].
  eapply StronglySorted_sublist;
    [apply sublist_take | apply sort_by_score_desc_sorted].
Qed.

Lemma search_suitable_jobs_capped_and_ranked_witness :
  valid_request request_07 = true
  /\ (let result :=
        _search_suitable_jobs (mkSettings 50 0.4%Q "") score_ABC request_07
          (Some [job_A; job_B; job_C]) new_service in
      Z.of_nat (length result) <= max_applications_per_run request_07
      /\ max_applications_per_run request_07 <= 20
      /\ StronglySorted (fun a b => (sort_key b <= sort_key a)%Q) result).
Proof.
  assert (H : valid_request request_07 = true) by reflexivity.
  split; [exact H|].
  exact (search_suitable_jobs_capped_and_ranked (mkSettings 50 0.4%Q "")
           score_ABC request_07 (Some [job_A; job_B; job_C]) new_service H).
Defined.

(** X7. A search never returns a posting that already has a ledger entry,
    successful or failed, and every posting it returns carries a score that
    reaches the matcher's threshold and the effective run threshold. *)
Theorem search_suitable_jobs_fresh_and_scored (settings : Settings)
    (score : JobDetails -> Q) (request : AutoApplyRequest)
    (all_jobs : option (list JobDetails)) (st : AutoApplyService) :
  Forall (fun job =>
            (jd_id job ∉ ledger_ids st)
            /\ exists q,
                 jd_match_score job = Some q
                 /\ (float_or (min_match_score request) 0.7 <= q)%Q
                 /\ (SIMILARITY_THRESHOLD settings <= q)%Q)
         (_search_suitable_jobs settings score request all_jobs st).
Proof.
  apply Forall_forall. intros job Hin. split.
  - by eapply search_suitable_jobs_fresh.
  - apply search_suitable_jobs_scores in Hin as (q & Hq & Hmin & Hthr & _).
    eauto.
Qed.

(** ** Statistics and history listing *)

Lemma round_half_even_bounds (y : Q) (lo hi : Z) :
  (inject_Z lo <= y)%Q -> (y <= inject_Z hi)%Q ->
  lo <= round_half_even y <= hi.
Proof.
  intros Hlo Hhi. unfold round_half_even.
  pose proof (Qfloor_le y) as Hfloor.
  assert (Hflo : lo <= Qfloor y).
  { rewrite <- (Qfloor_Z lo). by apply Qfloor_resp_le. }
  assert (Hfhi : Qfloor y <= hi).
  { rewrite <- (Qfloor_Z hi). by apply Qfloor_resp_le. }
  assert (Hup : Qlt_bool (y - inject_Z (Qfloor y)) (1 # 2) = false ->
                Qfloor y + 1 <= hi).
  { intros Hhalf%Qlt_bool_false_iff.
    destruct (Z.eq_dec (Qfloor y) hi) as [Heq|]; [|lia].
    rewrite Heq in Hhalf. lra. }
  destruct (Qlt_bool (y - inject_Z (Qfloor y)) (1 # 2)) eqn:E1; [lia|].
  specialize (Hup eq_refl).
  destruct (Qlt_bool (1 # 2) _); [lia|].
  destruct (Z.even _); lia.
Qed.

Lemma py_round_1_bounds (x : Q) :
  (0 <= x)%Q -> (x <= 100)%Q -> (0 <= py_round x 1)%Q /\ (py_round x 1 <= 100)%Q.
Proof.
  intros Hlo Hhi. unfold py_round.
  change (inject_Z (10 ^ Z.of_nat 1)) with 10%Q.
  destruct (round_half_even_bounds (x * 10) 0 1000) as [Hk0 Hk1].
  { change (inject_Z 0) with 0%Q. lra. }
  { change (inject_Z 1000) with 1000%Q. lra. }
  rewrite Qred_correct.
  rewrite Zle_Qle in Hk0, Hk1.
  change (inject_Z 0) with 0%Q in Hk0. change (inject_Z 1000) with 1000%Q in Hk1.
  split.
  - apply Qle_shift_div_l; lra.
  - apply Qle_shift_div_r; lra.
Qed.

(** X8. The statistics are consistent with the ledger: the total is the
    number of entries, successes and today's entries are between zero and
    the total, the success rate is a percentage between 0 and 100, the
    remaining quota is never negative, and the recent list holds at most
    ten ledger entries, all younger than 24 hours. *)
Theorem application_stats_consistent (settings : Settings) (t : Z)
    (st : AutoApplyService) :
  let stats := get_application_stats settings t st in
  stat_total_applications stats = Z.of_nat (length (application_history st))
  /\ 0 <= stat_successful_applications stats <= stat_total_applications stats
  /\ 0 <= stat_applications_today stats <= stat_total_applications stats
  /\ (0 <= stat_success_rate stats)%Q /\ (stat_success_rate stats <= 100)%Q
  /\ 0 <= stat_remaining_applications_today stats
  /\ (length (stat_recent_applications stats) <= 10)%nat
  /\ Forall (fun app =>
               app ∈ application_history st /\ t - 86400 < applied_at app)
            (stat_recent_applications stats).
Proof.
  intros stats. subst stats. cbn [get_application_stats
    stat_total_applications stat_successful_applications
    stat_applications_today stat_success_rate
    stat_remaining_applications_today stat_recent_applications].
  pose proof (filter_length_le success (application_history st)) as Hs.
  pose proof (filter_length_le
                (fun app => Z.eqb (date_of (applied_at app)) (date_of t))
                (application_history st)) as Ht.
  split; [done|]. split; [lia|]. split; [lia|].
  match goal with
  | |- (0 <= py_round ?x 1)%Q /\ _ =>
      assert (Hrate : (0 <= x)%Q /\ (x <= 100)%Q)
  end.
  { destruct (Z.ltb_spec 0 (Z.of_nat (length (application_history st))))
      as [Hpos|_]; [|split; lra].
    assert (H0 : (0 <= inject_Z (Z.of_nat (length (List.filter success
                                     (application_history st))))
                      / inject_Z (Z.of_nat (length (application_history st))))%Q).
    { apply Qle_shift_div_l; [by rewrite <- (Zlt_Qlt 0)|].
      rewrite Qmult_0_l, <- (Zle_Qle 0). lia. }
    assert (H1 : (inject_Z (Z.of_nat (length (List.filter success
                                     (application_history st))))
                  / inject_Z (Z.of_nat (length (application_history st))) <= 1)%Q).
    { apply Qle_shift_div_r; [by rewrite <- (Zlt_Qlt 0)|].
      rewrite Qmult_1_l, <- Zle_Qle. lia. }
    split; lra. }
  destruct (py_round_1_bounds _ (proj1 Hrate) (proj2 Hrate)) as [Hr0 Hr1].
  split; [exact Hr0|]. split; [exact Hr1|]. split; [lia|]. split.
  - unfold py_last_n. rewrite length_drop. lia.
  - unfold py_last_n. apply Forall_forall. intros app Hin.
    eapply elem_of_sublist in Hin; [|apply sublist_drop].
    apply list_elem_of_In, filter_In in Hin as [Hin Hrecent].
    split; [by apply list_elem_of_In|].
    apply Z.ltb_lt in Hrecent. lia.
Qed.

Lemma insert_recent_perm (app : ApplicationRecord) (sorted : list ApplicationRecord) :
  insert_recent app sorted ≡ₚ app :: sorted.
Proof.
  induction sorted as [|other rest IH]; simpl; [done|].
  destruct (Z.ltb _ _); [|done].
  rewrite IH. apply Permutation_swap.
Qed.

Lemma sorted_history_perm (h : list ApplicationRecord) : sorted_history h ≡ₚ h.
Proof.
  unfold sorted_history. induction h as [|app h IH]; simpl; [done|].
  by rewrite insert_recent_perm, IH.
Qed.

Lemma insert_recent_sorted (app : ApplicationRecord) (sorted : list ApplicationRecord) :
  StronglySorted (fun a b => applied_at b <= applied_at a) sorted ->
  StronglySorted (fun a b => applied_at b <= applied_at a) (insert_recent app sorted).
Proof.
  induction 1 as [|other rest Hsorted IH Hall]; simpl.
  - repeat constructor.
  - destruct (Z.ltb_spec (applied_at app) (applied_at other)).
    + constructor; [exact IH|].
      rewrite insert_recent_perm. constructor; [lia | exact Hall].
    + constructor; [by constructor|].
      constructor; [done|].
      eapply Forall_impl; [exact Hall|]. intros b Hb. simpl in Hb. lia.
Qed.

Lemma sorted_history_sorted (h : list ApplicationRecord) :
  StronglySorted (fun a b => applied_at b <= applied_at a) (sorted_history h).
Proof.
  unfold sorted_history. induction h as [|app h IH]; simpl; [constructor|].
  by apply insert_recent_sorted.
Qed.

(** X9. The history listing, unlike the retry selection, is ordered
    most-recent-first; for a non-negative limit it holds the smaller of
    [limit] and the ledger size many entries, and it is part of a
    rearrangement of the ledger: every listed entry is a ledger entry and
    none is listed more often than the ledger has it. *)
Theorem application_history_listing (limit : Z) (st : AutoApplyService) :
  0 <= limit ->
  let listing := get_application_history limit st in
  most_recent_first listing
  /\ Z.of_nat (length listing)
     = Z.min limit (Z.of_nat (length (application_history st)))
  /\ exists others, listing ++ others ≡ₚ application_history st.
Proof.
  intros Hlimit listing. subst listing. unfold get_application_history.
  rewrite (py_slice_to_nonneg _ _ Hlimit). split; [|split].
  - intros i j a b Hij Ha Hb.
    eapply (StronglySorted_lookup
              (fun a b => applied_at b <= applied_at a) _ i j a b);
      [|done|done|done].
    eapply StronglySorted_sublist;
      [apply sublist_take | apply sorted_history_sorted].
  - rewrite length_take, (Permutation_length (sorted_history_perm _)). lia.
  - exists (drop (Z.to_nat limit) (sorted_history (application_history st))).
    rewrite take_drop. apply sorted_history_perm.
Qed.

Lemma application_history_listing_witness :
  0 <= 1
  /\ (let listing :=
        get_application_history 1 (set_history ledger_two_failed new_service) in
      most_recent_first listing
      /\ Z.of_nat (length listing)
         = Z.min 1 (Z.of_nat (length (application_history
                                        (set_history ledger_two_failed new_service))))
      /\ exists others,
           listing ++ others
           ≡ₚ application_history (set_history ledger_two_failed new_service)).
Proof.
  assert (H : 0 <= 1) by (vm_compute; discriminate).
  split; [exact H|].
  exact (application_history_listing 1
           (set_history ledger_two_failed new_service) H).
Defined.

(** The listing shows the latest entry first where the retry selection
    takes the oldest. *)
Example listing_versus_retry_scenario :
  get_application_history 1 (set_history ledger_two_failed new_service)
  = [entry_Y]
  /\ (retry_selection 1 ledger_two_failed).*2 = [entry_X].
Proof. vm_compute. done. Qed.

(** ** Further properties of the scoring engine *)



(** X11. The experience score is monotone in the number of positions held:
    a profile with at least as many experience entries never scores lower
    on the same posting. *)
Theorem experience_match_monotone (junior senior : UserProfile)
    (job : JobDetails) :
  (length (up_experience junior) <= length (up_experience senior))%nat ->
  (_calculate_experience_match junior job
     <= _calculate_experience_match senior job)%Q.
Proof.
  intros Hlen. unfold _calculate_experience_match.
  set (required := default 4 (experience_mapping !! _)).
  assert (Hq : (inject_Z (Z.of_nat (length (up_experience junior)))
                <= inject_Z (Z.of_nat (length (up_experience senior))))%Q)
    by (rewrite <- Zle_Qle; lia).
  destruct (Z.leb_spec required (Z.of_nat (length (up_experience senior))))
    as [|Hs1].
  - repeat match goal with |- context [if ?b then _ else _] => destruct b end;
      lra.
  - destruct (Z.leb_spec required (Z.of_nat (length (up_experience junior))));
      [lia|].
    destruct (Qle_bool (inject_Z required * 0.7)
                (inject_Z (Z.of_nat (length (up_experience senior))))) eqn:Es7.
    + repeat match goal with |- context [if ?b then _ else _] => destruct b end;
        lra.
    + assert (Ej7 : Qle_bool (inject_Z required * 0.7)
                      (inject_Z (Z.of_nat (length (up_experience junior))))
                    = false).
      { destruct (Qle_bool _ (inject_Z (Z.of_nat (length (up_experience junior)))))
          eqn:E; [|done].
        apply Qle_bool_iff in E.
        assert (Qle_bool (inject_Z required * 0.7)
                  (inject_Z (Z.of_nat (length (up_experience senior)))) = true)
          by (apply Qle_bool_iff; lra).
        congruence. }
      rewrite Ej7.
      destruct (Qle_bool (inject_Z required * 0.5)
                  (inject_Z (Z.of_nat (length (up_experience senior))))) eqn:Es5.
      * repeat match goal with
               | |- context [if ?b then _ else _] => destruct b
               end; lra.
      * assert (Ej5 : Qle_bool (inject_Z required * 0.5)
                        (inject_Z (Z.of_nat (length (up_experience junior))))
                      = false).
        { destruct (Qle_bool (inject_Z required * 0.5)
                      (inject_Z (Z.of_nat (length (up_experience junior)))))
            eqn:E; [|done].
          apply Qle_bool_iff in E.
          assert (Qle_bool (inject_Z required * 0.5)
                    (inject_Z (Z.of_nat (length (up_experience senior)))) = true)
            by (apply Qle_bool_iff; lra).
          congruence. }
        rewrite Ej5. lra.
Qed.

Lemma experience_match_monotone_witness :
  (length (up_experience profile_cobol) <= length (up_experience profile_python))%nat
  /\ (_calculate_experience_match profile_cobol job_rust
        <= _calculate_experience_match profile_python job_rust)%Q.
Proof.
  assert (H : (length (up_experience profile_cobol)
               <= length (up_experience profile_python))%nat)
    by (vm_compute; lia).
  split; [exact H|].
  exact (experience_match_monotone profile_cobol profile_python job_rust H).
Defined.

(** X12. When the posting names at least one skill, the skills score is
    full exactly when the candidate has every skill the posting names, and
    it is zero exactly when the candidate has none of them (skills compared
    in lower case). *)
Theorem skills_match_extremes (profile : UserProfile) (job : JobDetails) :
  size (job_skills_of job) <> 0%nat ->
  ((_calculate_skills_match profile job == 1)%Q
     <-> job_skills_of job ⊆ user_skill_set profile)
  /\ ((_calculate_skills_match profile job == 0)%Q
        <-> user_skill_set profile ∩ job_skills_of job = ∅).
Proof.
  intros Hne. unfold _calculate_skills_match.
  fold (user_skill_set profile).
  destruct (Nat.eqb_spec (size (job_skills_of job)) 0) as [|_]; [done|].
  generalize dependent (job_skills_of job). intros wanted Hne.
  generalize (user_skill_set profile). intros offered.
  set (m := size (offered ∩ wanted)).
  set (n := size wanted).
  assert (Hmn : (m <= n)%nat)
    by apply subseteq_size, intersection_subseteq_r.
  assert (Hn : (0 < inject_Z (Z.of_nat n))%Q)
    by (rewrite <- (Zlt_Qlt 0); subst n; lia).
  assert (Hratio : forall c : Z,
    (inject_Z (Z.of_nat m) / inject_Z (Z.of_nat n) == inject_Z c)%Q
    <-> Z.of_nat m = c * Z.of_nat n).
  { intros c. split.
    - intros Heq.
      assert (H : (inject_Z (Z.of_nat m) == inject_Z c * inject_Z (Z.of_nat n))%Q).
      { rewrite <- Heq. field. lra. }
      rewrite <- inject_Z_mult in H. by apply inject_Z_injective.
    - intros Heq. rewrite Heq, inject_Z_mult. field. lra. }
  assert (Hle1 : (inject_Z (Z.of_nat m) / inject_Z (Z.of_nat n) <= 1)%Q).
  { apply Qle_shift_div_r; [done|]. rewrite Qmult_1_l, <- Zle_Qle. lia. }
  assert (Hmin : (py_min (inject_Z (Z.of_nat m) / inject_Z (Z.of_nat n)) 1
                  == inject_Z (Z.of_nat m) / inject_Z (Z.of_nat n))%Q).
  { unfold py_min.
    destruct (Qlt_bool 1 _) eqn:E; [|reflexivity].
    apply Qlt_bool_iff in E. lra. }
  rewrite !Hmin. split.
  - change 1%Q with (inject_Z 1). rewrite Hratio. split.
    + intros Heq.
      assert (Hsame : offered ∩ wanted = wanted).
      { apply set_subseteq_size_eq; [apply intersection_subseteq_r|].
        fold m n. lia. }
      rewrite <- Hsame. apply intersection_subseteq_l.
    + intros Hsub.
      assert (Hsame : offered ∩ wanted = wanted)
        by (rewrite (comm_L (∩)); by apply subseteq_intersection_L).
      subst m n. rewrite Hsame. lia.
  - change 0%Q with (inject_Z 0). rewrite Hratio. split.
    + intros Heq. apply leibniz_equiv, size_empty_iff. fold m. lia.
    + intros Hempty. subst m. rewrite Hempty, size_empty. lia.
Qed.

Lemma skills_match_extremes_witness :
  size (job_skills_of job_rust) <> 0%nat
  /\ (((_calculate_skills_match profile_cobol job_rust == 1)%Q
         <-> job_skills_of job_rust ⊆ user_skill_set profile_cobol)
      /\ ((_calculate_skills_match profile_cobol job_rust == 0)%Q
            <-> user_skill_set profile_cobol ∩ job_skills_of job_rust = ∅)).
Proof.
  assert (H : size (job_skills_of job_rust) <> 0%nat)
    by (vm_compute; discriminate).
  split; [exact H|].
  exact (skills_match_extremes profile_cobol job_rust H).
Defined.

(** The score computed for a posting does not read the score stored on
    it. *)
Lemma match_score_ignores_stored_score (settings : Settings) (env : Providers)
    (profile : UserProfile) (job : JobDetails) (v : Q) :
  _calculate_match_score settings env profile (set_match_score job v)
  = _calculate_match_score settings env profile job.
Proof. reflexivity. Qed.

Lemma match_jobs_with_idempotent (settings : Settings) (score : JobDetails -> Q)
    (jobs : list JobDetails) :
  (forall job v, score (set_match_score job v) = score job) ->
  match_jobs_with settings score (match_jobs_with settings score jobs)
  = match_jobs_with settings score jobs.
Proof.
  intros Hscore. induction jobs as [|job jobs IH]; [done|].
  cbn [match_jobs_with].
  destruct (Qle_bool (SIMILARITY_THRESHOLD settings) (score job)) eqn:E;
    [|exact IH].
  cbn [match_jobs_with]. rewrite Hscore, E, IH. done.
Qed.


Lemma py_min_mono_l (x y : Q) : (x <= y)%Q -> (py_min x 1 <= py_min y 1)%Q.
Proof.
  intros Hxy. unfold py_min.
  destruct (Qlt_bool 1 x) eqn:Ex; destruct (Qlt_bool 1 y) eqn:Ey;
    rewrite ?Qlt_bool_iff, ?Qlt_bool_false_iff in *; lra.
Qed.


(** ** Further properties of the bot *)

Section BotExtra.
Context {Page Element : Type} (ch : Channel Page Element).

Lemma continues_no_submit (trace : list step_action) :
  forallb continues trace = true -> submit_clicks trace = 0%nat.
Proof.
  unfold submit_clicks. induction trace as [|a trace IH]; [done|].
  simpl. intros [Ha Hrest]%andb_true_iff.
  destruct a; try discriminate; by apply IH.
Qed.


(** X16. With Selenium available, [apply_to_job] answers [True] only after
    a session exists (it was logged in or the login succeeded), the posting
    was opened, an enabled Apply button was clicked and the submission loop
    ended confirmed; the bot is then logged in. *)
Theorem apply_to_job_success (bot bot' : LinkedInBot Page) (job : JobDetails)
    (cover_letter custom_msg : option string) :
  SELENIUM_AVAILABLE bot = true ->
  apply_to_job ch bot job cover_letter custom_msg = (true, bot') ->
  is_logged_in bot' = true
  /\ exists p0 p1 p2 trace,
       (if is_logged_in bot then p0 = driver bot
        else login ch (driver bot) = (true, p0))
       /\ navigate ch (jd_url job) p0 = (true, p1)
       /\ _click_apply_button ch (wait ch p1) = (true, p2)
       /\ _handle_application_process ch cover_letter custom_msg p2
          = (true, trace, driver bot')
       /\ ends_confirmed trace = true.
Proof.
  intros Hsel. unfold apply_to_job. rewrite Hsel. simpl.
  destruct (is_logged_in bot) eqn:Hlog.
  - destruct (navigate ch (jd_url job) (driver bot)) as [arrived p1] eqn:Hnav.
    destruct arrived; simpl; [|discriminate].
    destruct (_click_apply_button ch (wait ch p1)) as [clicked p2] eqn:Hclick.
    destruct clicked; simpl; [|discriminate].
    pose proof (application_loop_spec ch cover_letter custom_msg max_steps p2)
      as Hspec.
    unfold _handle_application_process in *.
    destruct (application_loop ch cover_letter custom_msg max_steps p2)
      as [[result trace] p3] eqn:Hloop.
    destruct Hspec as (_ & Hres & _).
    intros [= -> <-]. split; [done|].
    exists (driver bot), p1, p2, trace. rewrite Hloop, <- Hres. done.
  - destruct (login ch (driver bot)) as [logged p0] eqn:Hlogin.
    destruct logged; simpl; [|discriminate].
    destruct (navigate ch (jd_url job) p0) as [arrived p1] eqn:Hnav.
    destruct arrived; simpl; [|discriminate].
    destruct (_click_apply_button ch (wait ch p1)) as [clicked p2] eqn:Hclick.
    destruct clicked; simpl; [|discriminate].
    pose proof (application_loop_spec ch cover_letter custom_msg max_steps p2)
      as Hspec.
    unfold _handle_application_process in *.
    destruct (application_loop ch cover_letter custom_msg max_steps p2)
      as [[result trace] p3] eqn:Hloop.
    destruct Hspec as (_ & Hres & _).
    intros [= -> <-]. split; [done|].
    exists p0, p1, p2, trace. rewrite Hloop, <- Hres. done.
Qed.

Context (human_type : Element -> string -> Page -> Page).

Lemma type_into_first_true (selectors : list string) (text : string)
    (p p' : Page) :
  type_into_first ch human_type selectors text p = Some (true, p') ->
  exists selector field,
    selector ∈ selectors
    /\ find_element ch XPATH selector p = Found field
    /\ p' = human_type field text p.
Proof.
  induction selectors as [|selector rest IH]; simpl; [discriminate|].
  destruct (find_element ch XPATH selector p) as [field| |] eqn:Hfind;
    [| |discriminate].
  - intros [= <-]. exists selector, field. split; [by left | done].
  - intros H. destruct (IH H) as (s & f & Hin & Hrest).
    exists s, f. split; [by right | done].
Qed.

Lemma type_into_first_false (selectors : list string) (text : string)
    (p p' : Page) :
  type_into_first ch human_type selectors text p = Some (false, p') -> p' = p.
Proof.
  induction selectors as [|selector rest IH]; simpl; [by intros [= <-]|].
  destruct (find_element ch XPATH selector p); [discriminate|done|discriminate].
Qed.

(** One text step of the form handler: it reports [True] only after a
    non-empty text went into a field that one of its selectors found. *)
Lemma text_step_true (selectors : list string) (value : option string)
    (p p' : Page) :
  (if opt_str_truthy value
   then type_into_first ch human_type selectors (default "" value) p
   else Some (false, p)) = Some (true, p') ->
  exists selector field text,
    selector ∈ selectors
    /\ find_element ch XPATH selector p = Found field
    /\ Some text = value
    /\ str_truthy text = true.
Proof.
  destruct value as [text|]; cbn [opt_str_truthy default]; [|discriminate].
  destruct (str_truthy text) eqn:Htext; [|discriminate].
  intros (selector & field & Hin & Hfound & _)%type_into_first_true.
  by exists selector, field, text.
Qed.


Context {Card : Type} (li : Listing Page Card).

Lemma apply_to_cards_bounds (cards : list Card) (max_applications sent : Z)
    (p : Page) :
  sent <= (apply_to_cards ch li cards max_applications sent p).1
       <= Z.max sent max_applications
  /\ (apply_to_cards ch li cards max_applications sent p).1 - sent
     <= Z.of_nat (length cards).
Proof.
  revert sent p. induction cards as [|card rest IH]; intros sent p; simpl;
    [lia|].
  destruct (Z.leb_spec max_applications sent); simpl; [lia|].
  destruct (card_click li card p) as [clicked p1].
  destruct clicked; simpl; [|specialize (IH sent p1); lia].
  destruct (_click_apply_button ch (wait ch p1)) as [apply_clicked p2].
  destruct apply_clicked; [|specialize (IH sent (wait ch p2)); lia].
  destruct (card_title li card p2); [|specialize (IH sent p2); lia].
  destruct (_handle_application_process ch None None p2) as [[success tr] p3].
  destruct success.
  - specialize (IH (sent + 1) (wait ch p3)). lia.
  - specialize (IH sent (wait ch p3)). lia.
Qed.


End BotExtra.

Lemma apply_to_job_success_witness :
  SELENIUM_AVAILABLE bot_logged_out = true
  /\ apply_to_job channel_submit_no_confirmation bot_logged_out
       (job_python "P1") None None = (true, mkBot true true 2%nat)
  /\ (is_logged_in (mkBot true true 2%nat) = true
      /\ exists p0 p1 p2 trace,
           (if is_logged_in bot_logged_out then p0 = driver bot_logged_out
            else login channel_submit_no_confirmation (driver bot_logged_out)
                 = (true, p0))
           /\ navigate channel_submit_no_confirmation
                (jd_url (job_python "P1")) p0 = (true, p1)
           /\ _click_apply_button channel_submit_no_confirmation
                (wait channel_submit_no_confirmation p1) = (true, p2)
           /\ _handle_application_process channel_submit_no_confirmation
                None None p2 = (true, trace, driver (mkBot true true 2%nat))
           /\ ends_confirmed trace = true).
Proof.
  assert (H1 : SELENIUM_AVAILABLE bot_logged_out = true) by reflexivity.
  assert (H2 : apply_to_job channel_submit_no_confirmation bot_logged_out
                 (job_python "P1") None None = (true, mkBot true true 2%nat))
    by (vm_compute; reflexivity).
  split; [exact H1|]. split; [exact H2|].
  exact (apply_to_job_success channel_submit_no_confirmation bot_logged_out
           (mkBot true true 2%nat) (job_python "P1") None None H1 H2).
Defined.


(** ** Job discovery *)

Lemma has_space_app (s1 s2 : string) :
  has_space (s1 +:+ s2) = has_space s1 || has_space s2.
Proof.
  induction s1 as [|c s1 IH]; simpl; [done|].
  by rewrite IH, orb_assoc.
Qed.

Lemma replace_spaces_no_space (s : string) : has_space (replace_spaces s) = false.
Proof.
  induction s as [|c s IH]; [done|]. cbn [replace_spaces].
  destruct (Ascii.eqb c (Ascii.ascii_of_N 32)) eqn:Ec.
  - exact IH.
  - cbn [has_space]. by rewrite Ec.
Qed.

Lemma join_no_space (sep : string) (parts : list string) :
  has_space sep = false ->
  Forall (fun part => has_space part = false) parts ->
  has_space (join sep parts) = false.
Proof.
  intros Hsep. induction 1 as [|part parts Hpart Hparts IH]; simpl; [done|].
  destruct parts as [|next parts]; [done|].
  by rewrite !has_space_app, Hpart, Hsep, IH.
Qed.

Lemma mapped_param_no_space (name : string) (mapping : gmap string string)
    (value : option string) :
  has_space name = false ->
  map_Forall (fun _ code => has_space code = false) mapping ->
  Forall (fun part => has_space part = false) (mapped_param name mapping value).
Proof.
  intros Hname Hcodes. unfold mapped_param.
  destruct (opt_str_truthy value); [|constructor].
  destruct (mapping !! lower (default "" value)) as [code|] eqn:Hcode;
    [|constructor].
  constructor; [|constructor].
  rewrite !has_space_app, Hname. simpl. by eapply Hcodes.
Qed.

(** X19. The search URL never contains a space, whatever the keywords,
    the location and the company are: every space of theirs is replaced
    and the filter codes contain none. *)
Theorem search_url_has_no_space (keywords location : string)
    (experience_level job_type company : option string) :
  has_space
    (_build_search_url keywords location experience_level job_type company)
  = false.
Proof.
  unfold _build_search_url. rewrite has_space_app. simpl.
  apply join_no_space; [done|].
  repeat apply Forall_app_2.
  - destruct (str_truthy keywords); repeat constructor.
    rewrite has_space_app. apply replace_spaces_no_space.
  - destruct (str_truthy location); repeat constructor.
    rewrite has_space_app. apply replace_spaces_no_space.
  - destruct (opt_str_truthy company); repeat constructor.
    rewrite has_space_app. apply replace_spaces_no_space.
  - apply mapped_param_no_space; [done|].
    unfold exp_mapping. repeat apply map_Forall_insert_2; try done.
  - apply mapped_param_no_space; [done|].
    unfold type_mapping. repeat apply map_Forall_insert_2; try done.
Qed.

(** The validator accepts the score of each of the five mock postings. *)
Lemma mock_job_accepted (keywords : string) (i : nat) :
  (i < 5)%nat ->
  exists job,
    mock_job keywords i = Some job
    /\ jd_id job = "mock_job_" +:+ pretty (i + 1)%nat
    /\ jd_title job = keywords +:+ " Engineer"
    /\ jd_match_score job = Some (0.8 - inject_Z (Z.of_nat i) * 0.1)%Q.
Proof.
  intros Hi. unfold mock_job.
  assert (H0 : (0 <= inject_Z (Z.of_nat i))%Q)
    by (rewrite <- (Zle_Qle 0); lia).
  assert (H4 : (inject_Z (Z.of_nat i) <= 4)%Q)
    by (rewrite <- (Zle_Qle _ 4); lia).
  assert (Hvalid : validate_match_score
                     (Some (0.8 - inject_Z (Z.of_nat i) * 0.1)%Q) = true).
  { unfold validate_match_score.
    apply negb_true_iff, orb_false_iff.
    split; apply Qlt_bool_false_iff; lra. }
  rewrite Hvalid. eexists. split; [reflexivity|]. done.
Qed.

Lemma mock_jobs_from (keywords : string) (n start : nat)
    (jobs : list JobDetails) :
  (start + n <= 5)%nat ->
  mapM (mock_job keywords) (seq start n) = Some jobs ->
  jd_id <$> jobs = (fun i => "mock_job_" +:+ pretty (i + 1)%nat) <$> seq start n
  /\ Forall (fun job =>
               jd_title job = keywords +:+ " Engineer"
               /\ exists q, jd_match_score job = Some q
                            /\ (0.4 <= q)%Q /\ (q <= 0.8)%Q)
            jobs.
Proof.
  revert start jobs. induction n as [|n IH]; intros start jobs Hle; simpl.
  - intros [= <-]. split; [done | constructor].
  - destruct (mock_job_accepted keywords start) as (job & -> & Hid & Htitle & Hq);
      [lia|].
    simpl.
    destruct (mapM (mock_job keywords) (seq (S start) n)) as [rest|] eqn:Hrest;
      [|discriminate].
    simpl. intros [= <-].
    destruct (IH (S start) rest) as [Hids Hall]; [lia | done |].
    split.
    + rewrite !fmap_cons. by rewrite Hid, Hids.
    + constructor; [|done]. split; [done|].
      eexists. split; [exact Hq|].
      assert (H0 : (0 <= inject_Z (Z.of_nat start))%Q)
        by (rewrite <- (Zle_Qle 0); lia).
      assert (H4 : (inject_Z (Z.of_nat start) <= 4)%Q)
        by (rewrite <- (Zle_Qle _ 4); lia).
      split; lra.
Qed.

(** X20. Without Selenium a search answers the mock postings, whatever
    the filters and the browser are: the validator accepts each of them,
    there are [min(limit, 5)] of them (none for a negative limit), their
    ids are pairwise different, each is titled after the keywords and
    carries a score between 0.4 and 0.8. *)
Theorem mock_search_listing (live : string -> Z -> option (list JobDetails))
    (keywords location : string)
    (experience_level job_type company : option string) (limit : Z) :
  exists jobs,
    search_jobs false live keywords location experience_level job_type
      company limit = Some jobs
    /\ Z.of_nat (length jobs) = Z.max 0 (Z.min limit 5)
    /\ NoDup (jd_id <$> jobs)
    /\ Forall (fun job =>
                 jd_title job = keywords +:+ " Engineer"
                 /\ exists q, jd_match_score job = Some q
                              /\ (0.4 <= q)%Q /\ (q <= 0.8)%Q)
              jobs.
Proof.
  unfold search_jobs, _get_mock_jobs. cbn [negb].
  set (n := Z.to_nat (Z.min limit 5)).
  assert (Hn : (n <= 5)%nat) by lia.
  destruct (mapM_is_Some_2 (mock_job keywords) (seq 0 n)) as [jobs Hjobs].
  { apply Forall_forall. intros i [_ Hi]%elem_of_seq.
    destruct (mock_job_accepted keywords i) as (job & Hjob & _); [lia|].
    by exists job. }
  exists jobs. split; [done|].
  destruct (mock_jobs_from keywords n 0 jobs) as [Hids Hall]; [lia | done |].
  split; [|split; [|done]].
  - rewrite <- (length_mapM _ _ _ Hjobs), length_seq. lia.
  - rewrite Hids. apply NoDup_fmap_2; [|apply NoDup_seq].
    intros i j Hij. apply (inj (String.append "mock_job_")) in Hij.
    apply (inj pretty) in Hij. lia.
Qed.

(** ** The matching endpoint *)

Lemma valid_limit_range (limit : Z) :
  validate_limit limit = true -> 1 <= limit <= 100 /\ int_or limit 20 = limit.
Proof.
  unfold validate_limit, int_or.
  intros [Hlow Hhigh]%negb_true_iff%orb_false_iff.
  apply Z.ltb_ge in Hlow, Hhigh.
  destruct (Z.eqb_spec limit 0); lia.
Qed.

(** X21. For a validated limit the matching endpoint answers at most
    [limit] postings, ranked by non-increasing score, each of them one of
    the postings found.  When the resume could be loaded every posting of
    the answer carries a score between [SIMILARITY_THRESHOLD] and 1; when
    it could not, the postings are answered as they were found,
    unfiltered. *)
Theorem match_endpoint_capped_and_ranked (settings : Settings)
    (env : Providers) (resume : option UserProfile) (found : list JobDetails)
    (limit : Z) :
  validate_limit limit = true ->
  let result := match_jobs_to_profile settings env resume found limit in
  Z.of_nat (length result) <= limit
  /\ StronglySorted (fun a b => (sort_key b <= sort_key a)%Q) result
  /\ (forall job, job ∈ result -> jd_id job ∈ jd_id <$> found)
  /\ (is_Some resume ->
      Forall (fun job =>
                exists q, jd_match_score job = Some q
                          /\ (SIMILARITY_THRESHOLD settings <= q)%Q
                          /\ (q <= 1)%Q)
             result)
  /\ (resume = None -> forall job, job ∈ result -> job ∈ found).
Proof.
  intros [[Hlow Hhigh] Hcap]%valid_limit_range result.
  subst result. unfold match_jobs_to_profile. rewrite Hcap.
  rewrite py_slice_to_nonneg by lia.
  set (matched_jobs := match resume with Some _ => _ | None => _ end).
  assert (Hin : forall job,
             job ∈ take (Z.to_nat limit) (sort_by_score_desc matched_jobs) ->
             job ∈ matched_jobs).
  { intros job Hjob. rewrite <- (sort_by_score_desc_perm matched_jobs).
    eapply elem_of_sublist; [exact Hjob | apply sublist_take]. }
  split; [rewrite length_take; lia|]. split; [|split; [|split]].
  - eapply StronglySorted_sublist;
      [apply sublist_take | apply sort_by_score_desc_sorted].
  - intros job Hjob%Hin. subst matched_jobs.
    destruct resume as [profile|]; [|by apply list_elem_of_fmap_2].
    eapply elem_of_sublist; [|apply match_jobs_with_ids].
    by apply list_elem_of_fmap_2.
  - intros [profile ->]. apply Forall_forall. intros job Hjob%Hin.
    subst matched_jobs. unfold match_jobs in Hjob.
    rewrite match_jobs_with_filter in Hjob.
    apply list_elem_of_fmap in Hjob as (posting & -> & Hposting).
    apply list_elem_of_In, filter_In in Hposting as [_ Hthr].
    exists (_calculate_match_score settings env profile posting).
    split; [done|]. split; [by apply Qle_bool_iff | apply match_score_le_1].
  - intros ->. exact Hin.
Qed.

Lemma match_endpoint_capped_and_ranked_witness :
  validate_limit 20 = true
  /\ (let result :=
        match_jobs_to_profile default_settings env_agreeing
          (Some profile_python) [job_python "P1"; job_rust] 20 in
      Z.of_nat (length result) <= 20
      /\ StronglySorted (fun a b => (sort_key b <= sort_key a)%Q) result
      /\ (forall job, job ∈ result
                      -> jd_id job ∈ jd_id <$> [job_python "P1"; job_rust])
      /\ (is_Some (Some profile_python) ->
          Forall (fun job =>
                    exists q, jd_match_score job = Some q
                              /\ (SIMILARITY_THRESHOLD default_settings <= q)%Q
                              /\ (q <= 1)%Q)
                 result)
      /\ (Some profile_python = None
          -> forall job, job ∈ result -> job ∈ [job_python "P1"; job_rust])).
Proof.
  assert (H : validate_limit 20 = true) by reflexivity.
  split; [exact H|].
  exact (match_endpoint_capped_and_ranked default_settings env_agreeing
           (Some profile_python) [job_python "P1"; job_rust] 20 H).
Defined.

(** ** Cover-letter validation *)

(** The score for [issues] issues and [suggestions] suggestions, at most
    two of each: the clamp at 0 does not take effect. *)
Lemma validation_score_exact (issues suggestions : nat) :
  (issues <= 2)%nat -> (suggestions <= 2)%nat ->
  let raw := (1 - inject_Z (Z.of_nat issues) * 0.2
                - inject_Z (Z.of_nat suggestions) * 0.1)%Q in
  (py_max 0 raw == raw)%Q
  /\ (0 < py_max 0 raw)%Q /\ (py_max 0 raw <= 1)%Q
  /\ ((py_max 0 raw == 1)%Q <-> issues = 0%nat /\ suggestions = 0%nat).
Proof.
  intros Hi Hs raw.
  assert (Hi0 : (0 <= inject_Z (Z.of_nat issues))%Q)
    by (rewrite <- (Zle_Qle 0); lia).
  assert (Hi2 : (inject_Z (Z.of_nat issues) <= 2)%Q)
    by (rewrite <- (Zle_Qle _ 2); lia).
  assert (Hs0 : (0 <= inject_Z (Z.of_nat suggestions))%Q)
    by (rewrite <- (Zle_Qle 0); lia).
  assert (Hs2 : (inject_Z (Z.of_nat suggestions) <= 2)%Q)
    by (rewrite <- (Zle_Qle _ 2); lia).
  assert (Hraw : (py_max 0 raw == raw)%Q).
  { unfold py_max. destruct (Qlt_bool 0 raw) eqn:E; [reflexivity|].
    apply Qlt_bool_false_iff in E. subst raw. lra. }
  split; [exact Hraw|]. rewrite Hraw. subst raw.
  split; [lra|]. split; [lra|]. split.
  - intros Heq.
    assert (Hi' : (inject_Z (Z.of_nat issues) <= 0)%Q) by lra.
    assert (Hs' : (inject_Z (Z.of_nat suggestions) <= 0)%Q) by lra.
    rewrite <- (Zle_Qle _ 0) in Hi'. rewrite <- (Zle_Qle _ 0) in Hs'. lia.
  - intros [-> ->]. reflexivity.
Qed.


(** ** The embeddings cache *)

Section Embeddings.
Context (settings : Settings) (VECTOR_DIMENSION : Z) (openai_available : bool).
Context (hash : string -> Z).

Local Abbreviation cache_key := (VectorStoreService.cache_key hash).
Local Abbreviation dummy_embedding :=
  (VectorStoreService.dummy_embedding VECTOR_DIMENSION).
Local Abbreviation api_enabled :=
  (VectorStoreService.api_enabled settings openai_available).
Local Abbreviation generate_embedding :=
  (VectorStoreService.generate_embedding settings VECTOR_DIMENSION
     openai_available hash).
Local Abbreviation generate_embeddings_batch :=
  (VectorStoreService.generate_embeddings_batch settings VECTOR_DIMENSION
     openai_available hash).
Local Abbreviation uncached := (VectorStoreService.uncached hash).
Local Abbreviation cached_embeddings := (VectorStoreService.cached_embeddings hash).
Local Abbreviation store_batch := (VectorStoreService.store_batch hash).
Local Abbreviation serve :=
  (VectorStoreService.serve settings VECTOR_DIMENSION openai_available hash).
Local Abbreviation serve_all :=
  (VectorStoreService.serve_all settings VECTOR_DIMENSION openai_available hash).

Lemma generate_embedding_hit (api : VectorStoreService.Api)
    (cache : gmap string (list Q)) (text model : string) (e : list Q) :
  cache !! cache_key model text = Some e ->
  generate_embedding api cache text model = (e, cache).
Proof.
  intros Hhit. unfold VectorStoreService.generate_embedding. by rewrite Hhit.
Qed.

Lemma generate_embedding_grows (api : VectorStoreService.Api)
    (cache : gmap string (list Q)) (text model : string) :
  cache ⊆ (generate_embedding api cache text model).2.
Proof.
  unfold VectorStoreService.generate_embedding.
  destruct (cache !! cache_key model text) eqn:Hkey; [done|].
  destruct (negb api_enabled); [done|].
  destruct (VectorStoreService.embedding_create api model text); [|done].
  by apply insert_subseteq.
Qed.

(** X23. One call of [generate_embedding] either answers an embedding that
    is in the cache afterwards, and then every later call for a text with
    the same hash (the same text in particular) and the same model answers
    that embedding without asking the API; or it answers the dummy vector
    of [VECTOR_DIMENSION] zeros, the text had no cache entry, and nothing
    is cached. *)
Theorem generate_embedding_answer (api : VectorStoreService.Api)
    (cache : gmap string (list Q)) (text model : string) :
  let '(e, cache') := generate_embedding api cache text model in
  (cache' !! cache_key model text = Some e
   /\ forall api' text',
        hash text' = hash text ->
        generate_embedding api' cache' text' model = (e, cache'))
  \/ (e = dummy_embedding
      /\ cache' = cache
      /\ cache !! cache_key model text = None
      /\ Z.of_nat (length e) = Z.max 0 VECTOR_DIMENSION
      /\ Forall (fun x => x = 0%Q) e).
Proof.
  assert (Hsame : forall (c : gmap string (list Q)) e api' text',
             c !! cache_key model text = Some e ->
             hash text' = hash text ->
             generate_embedding api' c text' model = (e, c)).
  { intros c e api' text' Hhit Hhash. apply generate_embedding_hit.
    unfold VectorStoreService.cache_key in *. by rewrite Hhash. }
  assert (Hdummy : Z.of_nat (length dummy_embedding) = Z.max 0 VECTOR_DIMENSION
                   /\ Forall (fun x => x = 0%Q) dummy_embedding).
  { unfold VectorStoreService.dummy_embedding. split.
    - rewrite length_replicate. lia.
    - apply Forall_forall. by intros x [-> _]%elem_of_replicate. }
  unfold VectorStoreService.generate_embedding at 1.
  destruct (cache !! cache_key model text) as [cached|] eqn:Hkey.
  - left. split; [done|]. intros api' text'. by apply Hsame.
  - destruct (negb api_enabled); [right; by repeat split; try apply Hdummy|].
    destruct (VectorStoreService.embedding_create api model text)
      as [embedding|]; [|right; by repeat split; try apply Hdummy].
    left. assert (Hnew : <[cache_key model text := embedding]> cache
                         !! cache_key model text = Some embedding)
      by apply lookup_insert_eq.
    split; [done|]. intros api' text'. by apply Hsame.
Qed.

Lemma elem_of_uncached (cache : gmap string (list Q)) (model : string)
    (texts : list string) (i : nat) (text : string) :
  (i, text) ∈ uncached cache model texts
  <-> texts !! i = Some text /\ cache !! cache_key model text = None.
Proof.
  unfold VectorStoreService.uncached.
  rewrite list_elem_of_In, filter_In, <- list_elem_of_In, elem_of_lookup_imap.
  rewrite bool_decide_eq_true. split.
  - intros [(j & y & [= -> ->] & Hj) Hnone]. done.
  - intros [Hi Hnone]. split; [|done]. by exists i, text.
Qed.

(** The loop over the answer of the API keeps the length of [embeddings],
    touches only entries at indices of uncached texts, and leaves every
    entry of a cache [base] that holds none of the keys it writes. *)
Lemma store_batch_spec (model : string) (data : list (option (list Q)))
    (items : list (nat * string)) (embeddings : list (option (list Q)))
    (cache base : gmap string (list Q)) :
  base ⊆ cache ->
  Forall (fun item => base !! cache_key model item.2 = None) items ->
  let '(embeddings', cache') :=
    store_batch model data items embeddings cache in
  length embeddings' = length embeddings
  /\ base ⊆ cache'
  /\ forall j, j ∉ items.*1 -> embeddings' !! j = embeddings !! j.
Proof.
  revert items embeddings cache.
  induction data as [|item data IH]; intros items embeddings cache Hbase Hitems.
  - simpl. by destruct items.
  - simpl. destruct item as [embedding|]; [|done].
    destruct items as [|[original_index text] items]; [done|].
    apply Forall_cons in Hitems as [Hfirst Hitems].
    specialize (IH items (<[original_index := Some embedding]> embeddings)
                  (<[cache_key model text := embedding]> cache)).
    destruct (store_batch model data items _ _) as [embeddings' cache'].
    destruct IH as (Hlen & Hsub & Hother);
      [by apply insert_subseteq_r | done |].
    split; [by rewrite Hlen, length_insert|]. split; [done|].
    intros j Hj. rewrite fmap_cons, not_elem_of_cons in Hj.
    destruct Hj as [Hne Hj]. rewrite (Hother j Hj).
    by apply list_lookup_insert_ne.
Qed.

Lemma generate_embeddings_batch_grows (api : VectorStoreService.Api)
    (cache : gmap string (list Q)) (texts : list string) (model : string) :
  cache ⊆ (generate_embeddings_batch api cache texts model).2.
Proof.
  unfold VectorStoreService.generate_embeddings_batch.
  pose proof (fun data =>
    store_batch_spec model data (uncached cache model texts)
      (cached_embeddings cache model texts) cache cache) as Hstore.
  destruct (uncached cache model texts) as [|first others] eqn:Hitems; [done|].
  destruct api_enabled; [|done].
  destruct (VectorStoreService.embedding_create_batch api model _)
    as [data|]; [|done].
  specialize (Hstore data).
  destruct (store_batch model data _ _ _) as [embeddings' cache'].
  destruct Hstore as (_ & Hsub & _); [done | | done].
  rewrite <- Hitems. apply Forall_forall. intros [i text] Hin.
  by apply elem_of_uncached in Hin as [_ Hnone].
Qed.

(** X24. [generate_embeddings_batch] answers one embedding per text, in
    the order of the texts; a text that has a cache entry receives that
    entry, whatever the API answers; no cache entry is changed or removed;
    and when the API is not enabled the cache stays as it is and every text
    without entry receives the dummy vector. *)
Theorem embeddings_batch_aligned (api : VectorStoreService.Api)
    (cache : gmap string (list Q)) (texts : list string) (model : string) :
  let '(result, cache') := generate_embeddings_batch api cache texts model in
  length result = length texts
  /\ cache ⊆ cache'
  /\ (forall i text e,
        texts !! i = Some text ->
        cache !! cache_key model text = Some e ->
        result !! i = Some e)
  /\ (api_enabled = false ->
      cache' = cache
      /\ result
         = (fun text => default dummy_embedding (cache !! cache_key model text))
             <$> texts).
Proof.
  pose proof (generate_embeddings_batch_grows api cache texts model) as Hgrow.
  unfold VectorStoreService.generate_embeddings_batch in *.
  assert (Hplain :
    let result := default dummy_embedding <$> cached_embeddings cache model texts in
    length result = length texts
    /\ (forall i text e,
          texts !! i = Some text ->
          cache !! cache_key model text = Some e ->
          result !! i = Some e)
    /\ result
       = (fun text => default dummy_embedding (cache !! cache_key model text))
           <$> texts).
  { unfold VectorStoreService.cached_embeddings. cbn zeta.
    rewrite <- list_fmap_compose. split; [by rewrite length_fmap|].
    split; [|done]. intros i text e Hi He.
    rewrite list_lookup_fmap, Hi. simpl. by rewrite He. }
  cbn zeta in Hplain. destruct Hplain as (Hlen & Hhit & Hclosed).
  pose proof (fun data =>
    store_batch_spec model data (uncached cache model texts)
      (cached_embeddings cache model texts) cache cache) as Hstore.
  pose proof (elem_of_uncached cache model texts) as Hunc.
  destruct (uncached cache model texts) as [|first others] eqn:Hitems;
    [by repeat split|].
  destruct api_enabled; [|by repeat split].
  destruct (VectorStoreService.embedding_create_batch api model _)
    as [data|]; [|by repeat split].
  specialize (Hstore data).
  destruct (store_batch model data _ _ _) as [embeddings' cache'].
  destruct Hstore as (Hlen' & _ & Hother); [done | |].
  { apply Forall_forall. intros [i text] Hin.
    by apply Hunc in Hin as [_ Hnone]. }
  split; [|split; [done|split; [|done]]].
  - rewrite length_fmap, Hlen'.
    unfold VectorStoreService.cached_embeddings. by rewrite length_fmap.
  - intros i text e Hi He.
    rewrite list_lookup_fmap, Hother.
    + unfold VectorStoreService.cached_embeddings.
      rewrite list_lookup_fmap, Hi. simpl. by rewrite He.
    + intros ([j text'] & -> & Hin)%list_elem_of_fmap.
      apply Hunc in Hin as [Hj Hnone]. simpl in Hi. congruence.
Qed.

Lemma serve_grows (cache : gmap string (list Q))
    (req : VectorStoreService.Request) :
  cache ⊆ serve cache req.
Proof.
  destruct req as [api text model|api texts model]; simpl.
  - apply generate_embedding_grows.
  - apply generate_embeddings_batch_grows.
Qed.

(** X25. Embedding requests never change or evict a cache entry: after
    any sequence of single and batch requests, with the API answering as it
    likes, every entry that was in the cache is still there, so a text that
    had an entry still receives the same embedding. *)
Theorem embedding_cache_entries_are_permanent (cache : gmap string (list Q))
    (reqs : list VectorStoreService.Request) :
  cache ⊆ serve_all cache reqs
  /\ forall api text model e,
       cache !! cache_key model text = Some e ->
       generate_embedding api (serve_all cache reqs) text model
       = (e, serve_all cache reqs).
Proof.
  assert (Hgrow : cache ⊆ serve_all cache reqs).
  { unfold VectorStoreService.serve_all. revert cache.
    induction reqs as [|req reqs IH]; intros cache; simpl; [done|].
    etrans; [apply serve_grows | apply IH]. }
  split; [done|]. intros api text model e Hhit.
  apply generate_embedding_hit. by eapply lookup_weaken.
Qed.

End Embeddings.
